(** * aws-c-s3: utilities of the S3 client (source/s3_util.c)

    A shallow embedding of [s3_util.c] and of the parts of the libraries it
    calls (aws-c-common strings, reference counts and XML parser, aws-c-auth
    signing configuration, aws-c-http header collections), with the
    properties of the utilities proved over it.

    Conventions.
    - A [struct aws_byte_cursor] is modelled by the bytes it designates
      ([string]); its [len] is the length of that string, and a zeroed cursor
      is the empty string.
    - A C pointer that may be [NULL] is an [option]; addresses are [positive].
    - A C [int] or enumerator is a [Z].  Enumerators and constants declared in
      headers of other libraries are taken as section variables.
    - Allocation through [struct aws_allocator] succeeds, as the code assumes
      (no result of [aws_mem_calloc] or [aws_string_new_from_cursor] is
      checked). *)

From Stdlib Require Import ZArith String Ascii List Bool Lia.
From stdpp Require Import base option gmap strings list fin_maps.

Local Open Scope Z_scope.

(** ** Byte cursors *)

Definition aws_byte_cursor := string.

Definition cursor_len (c : aws_byte_cursor) : Z := Z.of_nat (String.length c).

(** [aws_byte_cursor_eq]: same length and same bytes. *)
Definition aws_byte_cursor_eq (a b : aws_byte_cursor) : bool := String.eqb a b.

(** The lower-case table of aws-c-common: only 'A'..'Z' are changed. *)
Definition aws_lookup_table_to_lower (c : ascii) : ascii :=
  let n := N_of_ascii c in
  if ((65 <=? n) && (n <=? 90))%N then ascii_of_N (n + 32) else c.

(** [aws_byte_cursor_eq_ignore_case]: same length, and the bytes agree after
    the lower-case table. *)
Fixpoint aws_byte_cursor_eq_ignore_case (a b : aws_byte_cursor) : bool :=
  match a, b with
  | EmptyString, EmptyString => true
  | String x a', String y b' =>
      Ascii.eqb (aws_lookup_table_to_lower x) (aws_lookup_table_to_lower y)
      && aws_byte_cursor_eq_ignore_case a' b'
  | _, _ => false
  end.

Fixpoint cursor_to_lower (a : aws_byte_cursor) : aws_byte_cursor :=
  match a with
  | EmptyString => EmptyString
  | String x a' => String (aws_lookup_table_to_lower x) (cursor_to_lower a')
  end.

(** ** Constants of s3_util.c *)

Definition g_s3_service_name : aws_byte_cursor := "s3"%string.
Definition g_host_header_name : aws_byte_cursor := "Host"%string.
Definition g_range_header_name : aws_byte_cursor := "Range"%string.
Definition g_etag_header_name : aws_byte_cursor := "ETag"%string.
Definition g_content_range_header_name : aws_byte_cursor := "Content-Range"%string.
Definition g_content_type_header_name : aws_byte_cursor := "Content-Type"%string.
Definition g_content_length_header_name : aws_byte_cursor := "Content-Length"%string.
Definition g_accept_ranges_header_name : aws_byte_cursor := "accept-ranges"%string.
Definition g_post_method : aws_byte_cursor := "POST"%string.

Definition UINT64_MAX : Z := 2 ^ 64 - 1.

(** [const uint64_t g_s3_max_num_upload_parts = 10000;] *)
Definition g_s3_max_num_upload_parts : Z := 10000.

(** ** Last error *)

(** The thread-local state read by [aws_last_error]. *)
Record thread_state := { tl_last_error : Z }.

Definition aws_last_error (ts : thread_state) : Z := tl_last_error ts.

Section LastError.
(** Enumerators of aws-c-common's [enum aws_common_error]. *)
Variables AWS_ERROR_SUCCESS AWS_ERROR_UNKNOWN : Z.

Definition aws_last_error_or_unknown (ts : thread_state) : Z :=
  let error := aws_last_error ts in
  if error =? AWS_ERROR_SUCCESS then AWS_ERROR_UNKNOWN else error.

End LastError.

(** ** Signing configuration (aws-c-auth) *)

Definition ptr := positive.

(** [struct aws_date_time] is copied by value only; its calendar members
    travel with the timestamp. *)
Record aws_date_time := { timestamp : Z }.

Definition aws_date_time_zero : aws_date_time := {| timestamp := 0 |}.

(** The bit-field [flags] of [struct aws_signing_config_aws]. *)
Record aws_signing_flags := {
  use_double_uri_encode : bool;
  should_normalize_uri_path : bool;
  omit_session_token : bool;
}.

Definition aws_signing_flags_zero : aws_signing_flags :=
  {| use_double_uri_encode := false;
     should_normalize_uri_path := false;
     omit_session_token := false |}.

Definition set_should_normalize_uri_path (b : bool) (f : aws_signing_flags) :=
  {| use_double_uri_encode := use_double_uri_encode f;
     should_normalize_uri_path := b;
     omit_session_token := omit_session_token f |}.

(** [struct aws_signing_config_aws], declared in aws-c-auth.  The members
    are those s3_util.c reads or writes, together with the user data of
    [should_sign_header] and the two other flag bits of the declaration. *)
Record aws_signing_config_aws := {
  config_type : Z;
  algorithm : Z;
  signature_type : Z;
  region : aws_byte_cursor;
  service : aws_byte_cursor;
  date : aws_date_time;
  should_sign_header : option ptr;
  should_sign_header_ud : option ptr;
  flags : aws_signing_flags;
  signed_body_value : aws_byte_cursor;
  signed_body_header : Z;
  credentials : option ptr;
  credentials_provider : option ptr;
  expiration_in_seconds : Z;
}.

(** [AWS_ZERO_STRUCT] on a signing configuration. *)
Definition aws_signing_config_aws_zero : aws_signing_config_aws :=
  {| config_type := 0; algorithm := 0; signature_type := 0;
     region := ""%string; service := ""%string;
     date := aws_date_time_zero;
     should_sign_header := None; should_sign_header_ud := None;
     flags := aws_signing_flags_zero;
     signed_body_value := ""%string; signed_body_header := 0;
     credentials := None; credentials_provider := None;
     expiration_in_seconds := 0 |}.

(** Assignment to one member of a signing configuration. *)
Definition set_config_type v (c : aws_signing_config_aws) : aws_signing_config_aws :=
  let 'Build_aws_signing_config_aws _ x1 x2 x3 x4 x5 x6 x7 x8 x9 x10 x11 x12 x13 := c in
  Build_aws_signing_config_aws v x1 x2 x3 x4 x5 x6 x7 x8 x9 x10 x11 x12 x13.
Definition set_algorithm v (c : aws_signing_config_aws) : aws_signing_config_aws :=
  let 'Build_aws_signing_config_aws x0 _ x2 x3 x4 x5 x6 x7 x8 x9 x10 x11 x12 x13 := c in
  Build_aws_signing_config_aws x0 v x2 x3 x4 x5 x6 x7 x8 x9 x10 x11 x12 x13.
Definition set_signature_type v (c : aws_signing_config_aws) : aws_signing_config_aws :=
  let 'Build_aws_signing_config_aws x0 x1 _ x3 x4 x5 x6 x7 x8 x9 x10 x11 x12 x13 := c in
  Build_aws_signing_config_aws x0 x1 v x3 x4 x5 x6 x7 x8 x9 x10 x11 x12 x13.
Definition set_region v (c : aws_signing_config_aws) : aws_signing_config_aws :=
  let 'Build_aws_signing_config_aws x0 x1 x2 _ x4 x5 x6 x7 x8 x9 x10 x11 x12 x13 := c in
  Build_aws_signing_config_aws x0 x1 x2 v x4 x5 x6 x7 x8 x9 x10 x11 x12 x13.
Definition set_service v (c : aws_signing_config_aws) : aws_signing_config_aws :=
  let 'Build_aws_signing_config_aws x0 x1 x2 x3 _ x5 x6 x7 x8 x9 x10 x11 x12 x13 := c in
  Build_aws_signing_config_aws x0 x1 x2 x3 v x5 x6 x7 x8 x9 x10 x11 x12 x13.
Definition set_date v (c : aws_signing_config_aws) : aws_signing_config_aws :=
  let 'Build_aws_signing_config_aws x0 x1 x2 x3 x4 _ x6 x7 x8 x9 x10 x11 x12 x13 := c in
  Build_aws_signing_config_aws x0 x1 x2 x3 x4 v x6 x7 x8 x9 x10 x11 x12 x13.
Definition set_should_sign_header v (c : aws_signing_config_aws) : aws_signing_config_aws :=
  let 'Build_aws_signing_config_aws x0 x1 x2 x3 x4 x5 _ x7 x8 x9 x10 x11 x12 x13 := c in
  Build_aws_signing_config_aws x0 x1 x2 x3 x4 x5 v x7 x8 x9 x10 x11 x12 x13.
Definition set_flags v (c : aws_signing_config_aws) : aws_signing_config_aws :=
  let 'Build_aws_signing_config_aws x0 x1 x2 x3 x4 x5 x6 x7 _ x9 x10 x11 x12 x13 := c in
  Build_aws_signing_config_aws x0 x1 x2 x3 x4 x5 x6 x7 v x9 x10 x11 x12 x13.
Definition set_signed_body_value v (c : aws_signing_config_aws) : aws_signing_config_aws :=
  let 'Build_aws_signing_config_aws x0 x1 x2 x3 x4 x5 x6 x7 x8 _ x10 x11 x12 x13 := c in
  Build_aws_signing_config_aws x0 x1 x2 x3 x4 x5 x6 x7 x8 v x10 x11 x12 x13.
Definition set_signed_body_header v (c : aws_signing_config_aws) : aws_signing_config_aws :=
  let 'Build_aws_signing_config_aws x0 x1 x2 x3 x4 x5 x6 x7 x8 x9 _ x11 x12 x13 := c in
  Build_aws_signing_config_aws x0 x1 x2 x3 x4 x5 x6 x7 x8 x9 v x11 x12 x13.
Definition set_credentials v (c : aws_signing_config_aws) : aws_signing_config_aws :=
  let 'Build_aws_signing_config_aws x0 x1 x2 x3 x4 x5 x6 x7 x8 x9 x10 _ x12 x13 := c in
  Build_aws_signing_config_aws x0 x1 x2 x3 x4 x5 x6 x7 x8 x9 x10 v x12 x13.
Definition set_credentials_provider v (c : aws_signing_config_aws) : aws_signing_config_aws :=
  let 'Build_aws_signing_config_aws x0 x1 x2 x3 x4 x5 x6 x7 x8 x9 x10 x11 _ x13 := c in
  Build_aws_signing_config_aws x0 x1 x2 x3 x4 x5 x6 x7 x8 x9 x10 x11 v x13.
Definition set_expiration_in_seconds v (c : aws_signing_config_aws) : aws_signing_config_aws :=
  let 'Build_aws_signing_config_aws x0 x1 x2 x3 x4 x5 x6 x7 x8 x9 x10 x11 x12 _ := c in
  Build_aws_signing_config_aws x0 x1 x2 x3 x4 x5 x6 x7 x8 x9 x10 x11 x12 v.

(** [aws_s3_init_default_signing_config]: the enumerators and the
    unsigned-payload constant come from aws-c-auth. *)
Section DefaultSigningConfig.
Variables AWS_SIGNING_CONFIG_AWS AWS_SIGNING_ALGORITHM_V4 : Z.
Variable AWS_SBHT_X_AMZ_CONTENT_SHA256 : Z.
Variable g_aws_signed_body_value_unsigned_payload : aws_byte_cursor.

(** The first argument is the content of [*signing_config] on entry, the
    result its content on return. *)
Definition aws_s3_init_default_signing_config
    (signing_config : aws_signing_config_aws)
    (region : aws_byte_cursor)
    (credentials_provider : option ptr) : aws_signing_config_aws :=
  let signing_config := aws_signing_config_aws_zero in
  let signing_config := set_config_type AWS_SIGNING_CONFIG_AWS signing_config in
  let signing_config := set_algorithm AWS_SIGNING_ALGORITHM_V4 signing_config in
  let signing_config := set_credentials_provider credentials_provider signing_config in
  let signing_config := set_region region signing_config in
  let signing_config := set_service g_s3_service_name signing_config in
  let signing_config :=
    set_signed_body_header AWS_SBHT_X_AMZ_CONTENT_SHA256 signing_config in
  let signing_config :=
    set_signed_body_value g_aws_signed_body_value_unsigned_payload signing_config in
  set_flags (set_should_normalize_uri_path true (flags signing_config)) signing_config.

End DefaultSigningConfig.

(** ** Memory: allocator blocks and reference counts *)

(** [struct aws_cached_signing_config_aws], declared in
    aws/s3/private/s3_util.h, with the members s3_util.c uses: the owned
    strings and the configuration whose cursors designate them. *)
Record aws_cached_signing_config_aws := {
  cached_allocator : option ptr;
  cached_service : option ptr;
  cached_region : option ptr;
  cached_signed_body_value : option ptr;
  cached_config : aws_signing_config_aws;
}.

Definition aws_cached_signing_config_aws_zero : aws_cached_signing_config_aws :=
  {| cached_allocator := None; cached_service := None; cached_region := None;
     cached_signed_body_value := None; cached_config := aws_signing_config_aws_zero |}.

Definition set_cached_allocator v (c : aws_cached_signing_config_aws) :=
  {| cached_allocator := v; cached_service := cached_service c;
     cached_region := cached_region c;
     cached_signed_body_value := cached_signed_body_value c;
     cached_config := cached_config c |}.
Definition set_cached_service v (c : aws_cached_signing_config_aws) :=
  {| cached_allocator := cached_allocator c; cached_service := v;
     cached_region := cached_region c;
     cached_signed_body_value := cached_signed_body_value c;
     cached_config := cached_config c |}.
Definition set_cached_region v (c : aws_cached_signing_config_aws) :=
  {| cached_allocator := cached_allocator c; cached_service := cached_service c;
     cached_region := v;
     cached_signed_body_value := cached_signed_body_value c;
     cached_config := cached_config c |}.
Definition set_cached_signed_body_value v (c : aws_cached_signing_config_aws) :=
  {| cached_allocator := cached_allocator c; cached_service := cached_service c;
     cached_region := cached_region c;
     cached_signed_body_value := v;
     cached_config := cached_config c |}.
(** An assignment to a member of [cached_signing_config->config]. *)
Definition in_config (f : aws_signing_config_aws -> aws_signing_config_aws)
    (c : aws_cached_signing_config_aws) :=
  {| cached_allocator := cached_allocator c; cached_service := cached_service c;
     cached_region := cached_region c;
     cached_signed_body_value := cached_signed_body_value c;
     cached_config := f (cached_config c) |}.

(** The objects the utilities create, share and release:
    - the [aws_string]s and the cached configurations living in allocator
      blocks, by address;
    - the reference counts of the live [aws_credentials] and
      [aws_credentials_provider] objects (an object whose count drops to
      zero is destroyed and leaves the map). *)
Record memory := {
  mem_strings : gmap ptr string;
  mem_cached_configs : gmap ptr aws_cached_signing_config_aws;
  mem_credentials : gmap ptr positive;
  mem_credentials_providers : gmap ptr positive;
}.

Definition with_strings (f : gmap ptr string -> gmap ptr string) (m : memory) :=
  {| mem_strings := f (mem_strings m);
     mem_cached_configs := mem_cached_configs m;
     mem_credentials := mem_credentials m;
     mem_credentials_providers := mem_credentials_providers m |}.
Definition with_cached_configs
    (f : gmap ptr aws_cached_signing_config_aws -> gmap ptr aws_cached_signing_config_aws)
    (m : memory) :=
  {| mem_strings := mem_strings m;
     mem_cached_configs := f (mem_cached_configs m);
     mem_credentials := mem_credentials m;
     mem_credentials_providers := mem_credentials_providers m |}.
Definition with_credentials (f : gmap ptr positive -> gmap ptr positive) (m : memory) :=
  {| mem_strings := mem_strings m;
     mem_cached_configs := mem_cached_configs m;
     mem_credentials := f (mem_credentials m);
     mem_credentials_providers := mem_credentials_providers m |}.
Definition with_credentials_providers
    (f : gmap ptr positive -> gmap ptr positive) (m : memory) :=
  {| mem_strings := mem_strings m;
     mem_cached_configs := mem_cached_configs m;
     mem_credentials := mem_credentials m;
     mem_credentials_providers := f (mem_credentials_providers m) |}.

(** An address no live block of the allocator occupies. *)
Definition fresh_block (m : memory) : ptr :=
  fresh (dom (mem_strings m) ∪ dom (mem_cached_configs m)).

(** Code that reads and writes the memory. *)
Definition M (A : Type) : Type := memory -> A * memory.

Definition ret {A} (a : A) : M A := fun m => (a, m).
Definition bind {A B} (c : M A) (k : A -> M B) : M B :=
  fun m => let '(a, m') := c m in k a m'.

Declare Scope mem_scope.
Delimit Scope mem_scope with mem.
Notation "'let*' x := c 'in' k" := (bind c (fun x => k))
  (at level 10, x name, c at level 100, k at level 200) : mem_scope.
Notation "c ;; k" := (bind c (fun _ => k))
  (at level 100, k at level 200, right associativity) : mem_scope.
Notation "'when' b 'then' c" := (if b then c else ret tt) (at level 99, c at level 99) : mem_scope.

Local Open Scope mem_scope.

(** [aws_mem_calloc(allocator, 1, sizeof(struct aws_cached_signing_config_aws))] *)
Definition aws_mem_calloc_cached_signing_config (allocator : ptr) : M ptr :=
  fun m =>
    let p := fresh_block m in
    (p, with_cached_configs (insert p aws_cached_signing_config_aws_zero) m).

(** [aws_mem_release] of a cached configuration. *)
Definition aws_mem_release_cached_signing_config
    (allocator : option ptr) (p : ptr) : M unit :=
  fun m => (tt, with_cached_configs (delete p) m).

(** A store through [cached_signing_config->...]. *)
Definition store (p : ptr)
    (f : aws_cached_signing_config_aws -> aws_cached_signing_config_aws) : M unit :=
  fun m => (tt, with_cached_configs (alter f p) m).

Definition load (p : ptr) : M (option aws_cached_signing_config_aws) :=
  fun m => (mem_cached_configs m !! p, m).

(** [aws_string_new_from_cursor]: a new string holding a copy of the bytes. *)
Definition aws_string_new_from_cursor (allocator : ptr) (cursor : aws_byte_cursor)
    : M (option ptr) :=
  fun m =>
    let p := fresh_block m in
    (Some p, with_strings (insert p cursor) m).

(** [aws_string_destroy]: nothing on [NULL]. *)
Definition aws_string_destroy (str : option ptr) : M unit :=
  fun m =>
    match str with
    | None => (tt, m)
    | Some p => (tt, with_strings (delete p) m)
    end.

(** [aws_byte_cursor_from_string]: the bytes of the string. *)
Definition aws_byte_cursor_from_string (str : option ptr) : M aws_byte_cursor :=
  fun m =>
    match str ≫= (fun p => mem_strings m !! p) with
    | Some s => (s, m)
    | None => (""%string, m)
    end.

Definition ref_acquire (p : ptr) (refs : gmap ptr positive) : gmap ptr positive :=
  alter Pos.succ p refs.

Definition ref_release (p : ptr) (refs : gmap ptr positive) : gmap ptr positive :=
  match refs !! p with
  | Some 1%positive => delete p refs
  | Some n => <[p := Pos.pred n]> refs
  | None => refs
  end.

Definition aws_credentials_acquire (credentials : ptr) : M unit :=
  fun m => (tt, with_credentials (ref_acquire credentials) m).

(** [aws_credentials_release]: nothing on [NULL]. *)
Definition aws_credentials_release (credentials : option ptr) : M unit :=
  fun m =>
    match credentials with
    | None => (tt, m)
    | Some p => (tt, with_credentials (ref_release p) m)
    end.

Definition aws_credentials_provider_acquire (provider : ptr) : M unit :=
  fun m => (tt, with_credentials_providers (ref_acquire provider) m).

(** [aws_credentials_provider_release]: nothing on [NULL]. *)
Definition aws_credentials_provider_release (provider : option ptr) : M unit :=
  fun m =>
    match provider with
    | None => (tt, m)
    | Some p => (tt, with_credentials_providers (ref_release p) m)
    end.

(** [aws_cached_signing_config_new] *)
Definition aws_cached_signing_config_new
    (allocator : ptr) (signing_config : aws_signing_config_aws) : M ptr :=
  let* cached_signing_config := aws_mem_calloc_cached_signing_config allocator in
  store cached_signing_config (set_cached_allocator (Some allocator));;
  store cached_signing_config
    (in_config (set_config_type (config_type signing_config)));;
  store cached_signing_config
    (in_config (set_algorithm (algorithm signing_config)));;
  store cached_signing_config
    (in_config (set_signature_type (signature_type signing_config)));;
  (when 0 <? cursor_len (region signing_config) then
     let* str := aws_string_new_from_cursor allocator (region signing_config) in
     store cached_signing_config (set_cached_region str);;
     let* cur := aws_byte_cursor_from_string str in
     store cached_signing_config (in_config (set_region cur)));;
  (when 0 <? cursor_len (service signing_config) then
     let* str := aws_string_new_from_cursor allocator (service signing_config) in
     store cached_signing_config (set_cached_service str);;
     let* cur := aws_byte_cursor_from_string str in
     store cached_signing_config (in_config (set_service cur)));;
  store cached_signing_config (in_config (set_date (date signing_config)));;
  store cached_signing_config
    (in_config (set_should_sign_header (should_sign_header signing_config)));;
  store cached_signing_config (in_config (set_flags (flags signing_config)));;
  (* line 153 of the source: the test reads [signing_config->service.len] *)
  (when 0 <? cursor_len (service signing_config) then
     let* str :=
       aws_string_new_from_cursor allocator (signed_body_value signing_config) in
     store cached_signing_config (set_cached_signed_body_value str);;
     let* cur := aws_byte_cursor_from_string str in
     store cached_signing_config (in_config (set_signed_body_value cur)));;
  store cached_signing_config
    (in_config (set_signed_body_header (signed_body_header signing_config)));;
  match credentials signing_config with
  | Some credentials =>
      aws_credentials_acquire credentials;;
      store cached_signing_config (in_config (set_credentials (Some credentials)))
  | None => ret tt
  end;;
  match credentials_provider signing_config with
  | Some provider =>
      aws_credentials_provider_acquire provider;;
      store cached_signing_config
        (in_config (set_credentials_provider (Some provider)))
  | None => ret tt
  end;;
  store cached_signing_config
    (in_config (set_expiration_in_seconds (expiration_in_seconds signing_config)));;
  ret cached_signing_config.

(** [aws_cached_signing_config_destroy].  The argument is a pointer the
    caller owns: when it is not [NULL] it designates a live configuration. *)
Definition aws_cached_signing_config_destroy
    (cached_signing_config : option ptr) : M unit :=
  match cached_signing_config with
  | None => ret tt
  | Some p =>
      let* contents := load p in
      match contents with
      | None => ret tt
      | Some c =>
          aws_credentials_release (credentials (cached_config c));;
          aws_credentials_provider_release (credentials_provider (cached_config c));;
          aws_string_destroy (cached_service c);;
          aws_string_destroy (cached_region c);;
          aws_string_destroy (cached_signed_body_value c);;
          aws_mem_release_cached_signing_config (cached_allocator c) p
      end
  end.

Local Close Scope mem_scope.

(** ** HTTP header collections (aws-c-http) *)

Definition AWS_OP_SUCCESS : Z := 0.
Definition AWS_OP_ERR : Z := -1.

Record aws_http_header := {
  header_name : aws_byte_cursor;
  header_value : aws_byte_cursor;
}.

(** The live [struct aws_http_headers] objects, by address: each is the
    sequence of its headers, in order. *)
Abbreviation headers_store := (gmap ptr (list aws_http_header)).

(** [aws_http_headers_count] *)
Definition aws_http_headers_count (st : headers_store) (headers : ptr) : option nat :=
  length <$> st !! headers.

(** [aws_http_headers_get_index]: fails when the index is out of range and
    then leaves the out-parameter alone. *)
Definition aws_http_headers_get_index
    (st : headers_store) (headers : ptr) (index : nat) : option aws_http_header :=
  st !! headers ≫= (fun l => l !! index).

(** Header names are compared ignoring case. *)
Definition aws_http_header_name_eq (a b : aws_byte_cursor) : bool :=
  aws_byte_cursor_eq_ignore_case a b.

(** What [aws_http_headers_set] does to the sequence: the header is added
    at the end, then the headers already there under this name are erased. *)
Definition headers_set (name value : aws_byte_cursor) (l : list aws_http_header)
    : list aws_http_header :=
  List.filter (fun h => negb (aws_http_header_name_eq (header_name h) name)) l
  ++ [{| header_name := name; header_value := value |}].

(** [aws_http_headers_set]: an empty name is refused and nothing changes. *)
Definition aws_http_headers_set
    (st : headers_store) (headers : ptr) (name value : aws_byte_cursor)
    : Z * headers_store :=
  if cursor_len name =? 0 then (AWS_OP_ERR, st)
  else (AWS_OP_SUCCESS, alter (headers_set name value) headers st).

(** [aws_http_headers_get]: the value of the first header of that name. *)
Definition aws_http_headers_get
    (l : list aws_http_header) (name : aws_byte_cursor) : option aws_byte_cursor :=
  header_value <$> List.find (fun h => aws_http_header_name_eq (header_name h) name) l.

(** The loop of [copy_http_headers], with [n] iterations left.  [None]: the
    local [header] is read although [aws_http_headers_get_index] did not
    fill it in, which leaves the behaviour undefined. *)
Fixpoint copy_http_headers_loop
    (n : nat) (header_index : nat) (src dest : ptr) (st : headers_store)
    : option headers_store :=
  match n with
  | O => Some st
  | S n' =>
      match aws_http_headers_get_index st src header_index with
      | Some header =>
          let '(_, st) :=
            aws_http_headers_set st dest (header_name header) (header_value header) in
          copy_http_headers_loop n' (S header_index) src dest st
      | None => None
      end
  end.

(** [copy_http_headers]; both pointers designate live collections
    ([AWS_PRECONDITION]). *)
Definition copy_http_headers (src dest : ptr) (st : headers_store)
    : option headers_store :=
  match aws_http_headers_count st src, st !! dest with
  | Some headers_count, Some _ => copy_http_headers_loop headers_count 0 src dest st
  | _, _ => None
  end.

(** The value of the last header of that name. *)
Definition last_header_value
    (l : list aws_http_header) (name : aws_byte_cursor) : option aws_byte_cursor :=
  aws_http_headers_get (rev l) name.

(** The headers of a collection under one name, in order. *)
Definition headers_named (name : aws_byte_cursor) (l : list aws_http_header)
    : list aws_http_header :=
  List.filter (fun h => aws_http_header_name_eq (header_name h) name) l.

(** Every collection built through the aws-c-http interface has non-empty
    header names. *)
Definition headers_valid (l : list aws_http_header) : Prop :=
  Forall (fun h => header_name h <> ""%string) l.

(** ** The XML parser of aws-c-common, as its callers see it

    The parser belongs to aws-c-common.  It reads the bytes once, from left
    to right, and hands the nodes it meets to callbacks; what it finds in
    the bytes is described here by a tree, and its entry points walk that
    tree the way the parser walks the bytes: a callback that returns
    [false] stops the parsing, a node a callback did not consume is skipped
    up to its closing tag, and a tag that is not closed is a failure. *)

(** A node the parser hands to a callback.
    - [xml_name]: the tag name;
    - [xml_body]: the text between the opening tag and its closing tag,
      nested markup included; [None] when the closing tag cannot be found;
    - [xml_children]: the nodes nested directly in this one, in document
      order;
    - [xml_closed]: the closing tag follows the last child ([false]: the
      input is malformed there);
    - [processed]: set once a callback consumed the node. *)
Local Set Warnings "-register-all".
Inductive aws_xml_node := XmlNode {
  xml_name : aws_byte_cursor;
  xml_body : option aws_byte_cursor;
  xml_children : list aws_xml_node;
  xml_closed : bool;
  processed : bool;
}.

Definition set_processed (b : bool) (node : aws_xml_node) : aws_xml_node :=
  XmlNode (xml_name node) (xml_body node) (xml_children node) (xml_closed node) b.

(** What the parser finds in the bytes it is given. *)
Inductive xml_document :=
  | XmlNoMarkup                      (* bytes without any tag: refused *)
  | XmlNoNode                        (* nothing left after the preamble *)
  | XmlRoot (root : aws_xml_node).

Record aws_xml_parser := {
  doc : xml_document;
  error : Z;
  stop_parsing : bool;
}.

Definition set_error (e : Z) (parser : aws_xml_parser) : aws_xml_parser :=
  {| doc := doc parser; error := e; stop_parsing := stop_parsing parser |}.
Definition set_stop_parsing (b : bool) (parser : aws_xml_parser) : aws_xml_parser :=
  {| doc := doc parser; error := error parser; stop_parsing := b |}.

(** [aws_xml_parser_new] *)
Definition aws_xml_parser_new (document : xml_document) : aws_xml_parser :=
  {| doc := document; error := AWS_OP_SUCCESS; stop_parsing := false |}.

(** Behaviour the C standard leaves undefined (here: reading a local that
    was never written) is the outcome [None], as in the loop of
    [copy_http_headers]; [Some] carries what a defined run leaves. *)

(** [aws_xml_parser_on_node_encountered_fn] with user data of type [U]: the
    callback returns whether to go on, and leaves the parser, the node and
    the user data as it changed them. *)
Definition aws_xml_parser_on_node_encountered_fn (U : Type) : Type :=
  aws_xml_parser -> aws_xml_node -> U ->
  option (bool * (aws_xml_parser * aws_xml_node * U)).

(** [aws_xml_node_get_name]: fails on a [NULL] node only. *)
Definition aws_xml_node_get_name (node : option aws_xml_node) : Z * aws_byte_cursor :=
  match node with
  | Some n => (AWS_OP_SUCCESS, xml_name n)
  | None => (AWS_OP_ERR, ""%string)
  end.

Section XmlParsing.
(** What the parser leaves in [parser->error] when it fails.  The parser
    is not part of this repository and the value is left open: nothing
    below depends on it, zero (no record of the failure) included. *)
Variable recorded_error : Z.

(** [aws_xml_node_as_body]: marks the node processed and advances to its
    closing tag; on failure it returns an error and the out-parameter is
    not written ([None]). *)
Definition aws_xml_node_as_body (parser : aws_xml_parser) (node : aws_xml_node)
    : Z * (aws_xml_parser * aws_xml_node * option aws_byte_cursor) :=
  let node := set_processed true node in
  match xml_body node with
  | Some body => (error parser, (parser, node, Some body))
  | None => (AWS_OP_ERR, (set_error recorded_error parser, node, None))
  end.

(** The loop of [aws_xml_node_traverse] over the nodes that remain at the
    current level. *)
Fixpoint traverse_siblings {U : Type}
    (on_node_encountered : aws_xml_parser_on_node_encountered_fn U)
    (siblings : list aws_xml_node) (closed : bool)
    (parser : aws_xml_parser) (user_data : U) : option (Z * (aws_xml_parser * U)) :=
  if stop_parsing parser || negb (error parser =? 0) then
    Some (error parser, (parser, user_data))
  else
    match siblings with
    | [] =>
        if closed then Some (error parser, (parser, user_data))
        else Some (AWS_OP_ERR, (set_error recorded_error parser, user_data))
    | next_node :: rest =>
        match on_node_encountered parser (set_processed false next_node) user_data with
        | None => None
        | Some (go_on, (parser, next_node, user_data)) =>
            if negb go_on then
              let parser := set_stop_parsing true parser in
              Some (error parser, (parser, user_data))
            else if negb (stop_parsing parser) && negb (processed next_node) then
              (* the callback skipped the node: advance to its closing tag *)
              match xml_body next_node with
              | Some _ =>
                  traverse_siblings on_node_encountered rest closed parser user_data
              | None => Some (AWS_OP_ERR, (set_error recorded_error parser, user_data))
              end
            else traverse_siblings on_node_encountered rest closed parser user_data
        end
    end.

(** [aws_xml_node_traverse]: the callback is invoked on the nodes nested
    directly in [node], in order, until it returns [false]. *)
Definition aws_xml_node_traverse {U : Type}
    (parser : aws_xml_parser) (node : aws_xml_node)
    (on_node_encountered : aws_xml_parser_on_node_encountered_fn U) (user_data : U)
    : option (Z * (aws_xml_parser * aws_xml_node * U)) :=
  let node := set_processed true node in
  match traverse_siblings on_node_encountered (xml_children node) (xml_closed node)
          parser user_data with
  | None => None
  | Some (rc, (parser, user_data)) => Some (rc, (parser, node, user_data))
  end.

(** [aws_xml_parser_parse]: the callback is invoked on the root node. *)
Definition aws_xml_parser_parse {U : Type}
    (parser : aws_xml_parser)
    (on_node_encountered : aws_xml_parser_on_node_encountered_fn U) (user_data : U)
    : option (Z * (aws_xml_parser * U)) :=
  match doc parser with
  | XmlNoMarkup => Some (AWS_OP_ERR, (parser, user_data))
  | XmlNoNode => Some (error parser, (parser, user_data))
  | XmlRoot root =>
      match on_node_encountered parser (set_processed false root) user_data with
      | None => None
      | Some (go_on, (parser, root, user_data)) =>
          let parser := set_stop_parsing (negb go_on) parser in
          if negb (processed root) then
            match xml_body root with
            | Some _ => Some (error parser, (parser, user_data))
            | None => Some (AWS_OP_ERR, (set_error recorded_error parser, user_data))
            end
          else Some (error parser, (parser, user_data))
      end
  end.

(** ** Top-level tag value (s3_util.c) *)

(** An [aws_string] result is modelled by its bytes. *)
Record top_level_xml_tag_value_user_data := {
  allocator : ptr;
  tag_name : aws_byte_cursor;
  result : option string;
}.

Definition set_result (r : option string) (ud : top_level_xml_tag_value_user_data) :=
  {| allocator := allocator ud; tag_name := tag_name ud; result := r |}.

(** [s_top_level_xml_tag_value_child_xml_node].  The return value of
    [aws_xml_node_as_body] is not looked at: when the call fails, the local
    [node_body] it was to fill is read without ever having been written,
    and the behaviour is undefined. *)
Definition s_top_level_xml_tag_value_child_xml_node
    : aws_xml_parser_on_node_encountered_fn top_level_xml_tag_value_user_data :=
  fun parser node user_data =>
    let '(rc, node_name) := aws_xml_node_get_name (Some node) in
    if negb (rc =? 0) then Some (false, (parser, node, user_data))
    else
      let xml_user_data := user_data in
      if aws_byte_cursor_eq node_name (tag_name xml_user_data) then
        let '(_, (parser, node, written)) := aws_xml_node_as_body parser node in
        match written with
        | Some node_body =>
            let xml_user_data := set_result (Some node_body) xml_user_data in
            Some (false, (parser, node, xml_user_data))
        | None => None
        end
      else Some (true, (parser, node, xml_user_data)).

(** [s_top_level_xml_tag_value_root_xml_node] *)
Definition s_top_level_xml_tag_value_root_xml_node
    : aws_xml_parser_on_node_encountered_fn top_level_xml_tag_value_user_data :=
  fun parser node user_data =>
    match aws_xml_node_traverse parser node
            s_top_level_xml_tag_value_child_xml_node user_data with
    | None => None
    | Some (_, (parser, node, user_data)) => Some (false, (parser, node, user_data))
    end.

(** [get_top_level_xml_tag_value]; [xml_body] is what the parser finds in
    the bytes of the cursor.  [Some r]: the function returns [r] ([None]
    for [NULL]). *)
Definition get_top_level_xml_tag_value
    (allocator : ptr) (tag_name : aws_byte_cursor) (xml_body : xml_document)
    : option (option string) :=
  let parser := aws_xml_parser_new xml_body in
  let xml_user_data :=
    {| allocator := allocator; tag_name := tag_name; result := None |} in
  match aws_xml_parser_parse parser
          s_top_level_xml_tag_value_root_xml_node xml_user_data with
  | None => None
  | Some (rc, (parser, xml_user_data)) =>
      let xml_user_data :=
        if negb (rc =? 0)
        then (* aws_string_destroy(xml_user_data.result) *)
          set_result None xml_user_data
        else xml_user_data in
      Some (result xml_user_data)
  end.

End XmlParsing.


(** ** Auxiliary notions used in the statements *)

(** An address free in the strings [S] and in the configurations [C], and
    different from [p]. *)
Definition fresh_beside (S : gmap ptr string)
    (C : gmap ptr aws_cached_signing_config_aws) (p : ptr) : ptr :=
  fresh (dom S ∪ ({[p]} ∪ dom C)).

(** The memory whose configuration at [p] holds [c]. *)
Definition memory_with (S : gmap ptr string)
    (C : gmap ptr aws_cached_signing_config_aws) (p : ptr)
    (c : aws_cached_signing_config_aws)
    (creds provs : gmap ptr positive) : memory :=
  {| mem_strings := S; mem_cached_configs := <[p := c]> C;
     mem_credentials := creds; mem_credentials_providers := provs |}.

(** The strings a cached configuration owns. *)
Definition owned_strings (c : aws_cached_signing_config_aws) : gset ptr :=
  from_option singleton ∅ (cached_region c)
  ∪ from_option singleton ∅ (cached_service c)
  ∪ from_option singleton ∅ (cached_signed_body_value c).

(** The headers a sequence of [aws_http_headers_set] leaves: those of [hs]
    set in order in a collection holding [hd]. *)
Definition set_all (hs hd : list aws_http_header) : list aws_http_header :=
  fold_left (fun l h => headers_set (header_name h) (header_value h) l) hs hd.

(** The last header of that name. *)
Definition last_header_named (name : aws_byte_cursor) (l : list aws_http_header)
    : option aws_http_header :=
  List.find (fun h => aws_http_header_name_eq (header_name h) name) (rev l).

(** The first node nested directly in the root whose name is the tag. *)
Definition top_level_child (tag : aws_byte_cursor) (root : aws_xml_node)
    : option aws_xml_node :=
  List.find (fun c => aws_byte_cursor_eq (xml_name c) tag) (xml_children root).

(** Every node nested directly in the root has its closing tag. *)
Definition top_level_children_closed (root : aws_xml_node) : Prop :=
  Forall (fun c => is_Some (xml_body c)) (xml_children root).

(** ** Sample inputs *)

Definition sample_flags : aws_signing_flags :=
  {| use_double_uri_encode := false; should_normalize_uri_path := true;
     omit_session_token := false |}.

(** A configuration for S3 in us-east-1 that names a credentials provider. *)
Definition sample_signing_config : aws_signing_config_aws :=
  {| config_type := 1; algorithm := 0; signature_type := 0;
     region := "us-east-1"%string; service := "s3"%string;
     date := {| timestamp := 1600000000 |};
     should_sign_header := None; should_sign_header_ud := None;
     flags := sample_flags;
     signed_body_value := "UNSIGNED-PAYLOAD"%string; signed_body_header := 1;
     credentials := None; credentials_provider := Some 7%positive;
     expiration_in_seconds := 0 |}.

(** The same configuration with an empty signed body value. *)
Definition signing_config_empty_body : aws_signing_config_aws :=
  set_signed_body_value ""%string sample_signing_config.

(** The same configuration with an empty service. *)
Definition signing_config_no_service : aws_signing_config_aws :=
  set_service ""%string sample_signing_config.

(** A memory in which the provider at address 7 is live, held once. *)
Definition sample_memory : memory :=
  {| mem_strings := ∅; mem_cached_configs := ∅; mem_credentials := ∅;
     mem_credentials_providers := {[ 7%positive := 1%positive ]} |}.

(** Two header collections: the source at address 1 repeats the name Host
    (in two spellings), the destination at address 2 holds a Host and a
    Range header. *)
Definition sample_src_headers : list aws_http_header :=
  [ {| header_name := "Host"%string; header_value := "a.example"%string |};
    {| header_name := "ETag"%string; header_value := "e1"%string |};
    {| header_name := "host"%string; header_value := "b.example"%string |} ].

Definition sample_dest_headers : list aws_http_header :=
  [ {| header_name := "HOST"%string; header_value := "old.example"%string |};
    {| header_name := "Range"%string; header_value := "bytes=0-9"%string |} ].

Definition sample_headers_store : headers_store :=
  {[ 1%positive := sample_src_headers; 2%positive := sample_dest_headers ]}.

(** A node holding text only. *)
Definition xml_text_node (name body : string) : aws_xml_node :=
  XmlNode name (Some body) [] true false.

(** The response to CreateMultipartUpload:
    [<InitiateMultipartUploadResult><Bucket>b</Bucket><Key>k</Key>
     <UploadId>xyz</UploadId></InitiateMultipartUploadResult>]. *)
Definition sample_upload_result : xml_document :=
  XmlRoot
    (XmlNode "InitiateMultipartUploadResult"%string
       (Some "<Bucket>b</Bucket><Key>k</Key><UploadId>xyz</UploadId>"%string)
       [ xml_text_node "Bucket" "b"; xml_text_node "Key" "k";
         xml_text_node "UploadId" "xyz" ]
       true false).

(** A document whose only UploadId is nested one level deeper:
    [<Result><Upload><UploadId>deep</UploadId></Upload></Result>]. *)
Definition sample_nested_upload_id : xml_document :=
  XmlRoot
    (XmlNode "Result"%string
       (Some "<Upload><UploadId>deep</UploadId></Upload>"%string)
       [ XmlNode "Upload"%string (Some "<UploadId>deep</UploadId>"%string)
           [ xml_text_node "UploadId" "deep" ] true false ]
       true false).

(** A truncated response: the UploadId tag is never closed.
    [<InitiateMultipartUploadResult><UploadId>xy]. *)
Definition sample_truncated_upload_result : xml_document :=
  XmlRoot
    (XmlNode "InitiateMultipartUploadResult"%string None
       [ XmlNode "UploadId"%string None [] false false ]
       false false).

(** A response whose Bucket tag is never closed and that holds no
    UploadId: [<InitiateMultipartUploadResult><Bucket>b]. *)
Definition sample_unclosed_bucket : xml_document :=
  XmlRoot
    (XmlNode "InitiateMultipartUploadResult"%string None
       [ XmlNode "Bucket"%string None [] false false ]
       false false).

(** One collection, at address 1, without a repeated name. *)
Definition sample_single_headers : list aws_http_header :=
  [ {| header_name := "A"%string; header_value := "1"%string |};
    {| header_name := "B"%string; header_value := "2"%string |} ].

Definition sample_single_store : headers_store :=
  {[ 1%positive := sample_single_headers ]}.

(** ** Further notions used in the statements *)

(** What a left-to-right walk over the nodes nested directly in the root
    comes to: the body of the first node of the wanted name when that node
    and the nodes before it are closed; undefined behaviour ([None]) when
    that node is reached and is not closed; no value in the other cases. *)
Fixpoint top_level_walk (tag : aws_byte_cursor) (siblings : list aws_xml_node)
    : option (option string) :=
  match siblings with
  | [] => Some None
  | c :: rest =>
      if aws_byte_cursor_eq (xml_name c) tag then
        match xml_body c with
        | Some body => Some (Some body)
        | None => None
        end
      else match xml_body c with
           | Some _ => top_level_walk tag rest
           | None => Some None
           end
  end.

(** Some header of the sequence has that name. *)
Definition named_in (name : aws_byte_cursor) (l : list aws_http_header) : bool :=
  existsb (fun h => aws_http_header_name_eq (header_name h) name) l.

(** The sequence without the headers that a later header of the same name
    follows. *)
Fixpoint keep_last (l : list aws_http_header) : list aws_http_header :=
  match l with
  | [] => []
  | h :: tl => if named_in (header_name h) tl then keep_last tl else h :: keep_last tl
  end.

(** No two headers of the sequence have the same name. *)
Definition headers_unique (l : list aws_http_header) : Prop :=
  forall name, (length (headers_named name l) <= 1)%nat.

(** * Properties *)

#[local] Set Warnings "-clear-no-such-hyp".

(** ** Constants and the last error *)

(** The constant [g_s3_max_num_upload_parts] is 10000, which its type
    [uint64_t] holds. *)
Lemma g_s3_max_num_upload_parts_is_10000 :
  g_s3_max_num_upload_parts = 10000 ∧ 0 <= g_s3_max_num_upload_parts <= UINT64_MAX.
Proof. unfold g_s3_max_num_upload_parts, UINT64_MAX. lia. Qed.

(** C9: [aws_last_error_or_unknown] returns the last error when it is not
    [AWS_ERROR_SUCCESS] and [AWS_ERROR_UNKNOWN] otherwise; the two
    enumerators being different, it never returns [AWS_ERROR_SUCCESS]. *)
Theorem aws_last_error_or_unknown_never_success
    (AWS_ERROR_SUCCESS AWS_ERROR_UNKNOWN : Z) (ts : thread_state) :
  AWS_ERROR_UNKNOWN ≠ AWS_ERROR_SUCCESS →
  aws_last_error_or_unknown AWS_ERROR_SUCCESS AWS_ERROR_UNKNOWN ts ≠ AWS_ERROR_SUCCESS
  ∧ (aws_last_error ts ≠ AWS_ERROR_SUCCESS →
     aws_last_error_or_unknown AWS_ERROR_SUCCESS AWS_ERROR_UNKNOWN ts = aws_last_error ts)
  ∧ (aws_last_error ts = AWS_ERROR_SUCCESS →
     aws_last_error_or_unknown AWS_ERROR_SUCCESS AWS_ERROR_UNKNOWN ts = AWS_ERROR_UNKNOWN).
Proof.
  intros Hne. unfold aws_last_error_or_unknown. cbv zeta.
  destruct (Z.eqb_spec (aws_last_error ts) AWS_ERROR_SUCCESS) as [Heq|Hneq].
  - split; [exact Hne|]. split; [intros H; contradiction | reflexivity].
  - split; [exact Hneq|]. split; [reflexivity | intros H; contradiction].
Qed.

Lemma aws_last_error_or_unknown_never_success_witness :
  (3 ≠ 0)
  ∧ aws_last_error_or_unknown 0 3 {| tl_last_error := 0 |} = 3
  ∧ aws_last_error_or_unknown 0 3 {| tl_last_error := 34 |} = 34.
Proof.
  split; [lia|]. split.
  - apply (aws_last_error_or_unknown_never_success 0 3 {| tl_last_error := 0 |});
      [lia | reflexivity].
  - apply (aws_last_error_or_unknown_never_success 0 3 {| tl_last_error := 34 |});
      [lia | cbn; lia].
Defined.

(** ** The default signing configuration *)

(** C5: whatever the structure held before, after
    [aws_s3_init_default_signing_config] it holds the configuration type,
    the SigV4 algorithm, the given provider and region, the service "s3",
    the content-sha256 body header, the unsigned-payload body value and the
    path-normalisation flag; every other member is zero. *)
Theorem aws_s3_init_default_signing_config_fields
    (AWS_SIGNING_CONFIG_AWS AWS_SIGNING_ALGORITHM_V4 AWS_SBHT_X_AMZ_CONTENT_SHA256 : Z)
    (g_aws_signed_body_value_unsigned_payload : aws_byte_cursor)
    (signing_config : aws_signing_config_aws)
    (region : aws_byte_cursor) (credentials_provider : option ptr) :
  aws_s3_init_default_signing_config
    AWS_SIGNING_CONFIG_AWS AWS_SIGNING_ALGORITHM_V4 AWS_SBHT_X_AMZ_CONTENT_SHA256
    g_aws_signed_body_value_unsigned_payload
    signing_config region credentials_provider =
  {| config_type := AWS_SIGNING_CONFIG_AWS;
     algorithm := AWS_SIGNING_ALGORITHM_V4;
     signature_type := 0;
     region := region;
     service := "s3"%string;
     date := aws_date_time_zero;
     should_sign_header := None;
     should_sign_header_ud := None;
     flags := {| use_double_uri_encode := false;
                 should_normalize_uri_path := true;
                 omit_session_token := false |};
     signed_body_value := g_aws_signed_body_value_unsigned_payload;
     signed_body_header := AWS_SBHT_X_AMZ_CONTENT_SHA256;
     credentials := None;
     credentials_provider := credentials_provider;
     expiration_in_seconds := 0 |}.
Proof. reflexivity. Qed.


(** ** Running code in the memory monad *)

Lemma bind_run {A B} (c : M A) (k : A -> M B) m a m' :
  c m = (a, m') -> bind c k m = k a m'.
Proof. unfold bind. intros ->. reflexivity. Qed.

Lemma fresh_block_memory_with S C p c creds provs :
  fresh_block (memory_with S C p c creds provs) = fresh_beside S C p.
Proof.
  unfold fresh_block, fresh_beside, memory_with. cbn.
  rewrite dom_insert_L. reflexivity.
Qed.

Lemma fresh_beside_strings S C p : S !! fresh_beside S C p = None.
Proof.
  apply not_elem_of_dom. unfold fresh_beside.
  pose proof (is_fresh (dom S ∪ ({[p]} ∪ dom C))) as Hf. set_solver.
Qed.

Lemma fresh_beside_ne S C p : fresh_beside S C p <> p.
Proof.
  unfold fresh_beside.
  pose proof (is_fresh (dom S ∪ ({[p]} ∪ dom C))) as Hf. set_solver.
Qed.

Lemma fresh_block_configs m : mem_cached_configs m !! fresh_block m = None.
Proof.
  apply not_elem_of_dom. unfold fresh_block.
  pose proof (is_fresh (dom (mem_strings m) ∪ dom (mem_cached_configs m))) as Hf.
  set_solver.
Qed.

Lemma calloc_run allocator m :
  aws_mem_calloc_cached_signing_config allocator m =
  (fresh_block m,
   memory_with (mem_strings m) (mem_cached_configs m) (fresh_block m)
     aws_cached_signing_config_aws_zero
     (mem_credentials m) (mem_credentials_providers m)).
Proof. reflexivity. Qed.

Lemma store_run S C p c creds provs f :
  store p f (memory_with S C p c creds provs) =
  (tt, memory_with S C p (f c) creds provs).
Proof.
  unfold store, memory_with, with_cached_configs. cbn.
  rewrite alter_insert_eq. reflexivity.
Qed.

Lemma string_new_run S C p c creds provs allocator cursor :
  aws_string_new_from_cursor allocator cursor (memory_with S C p c creds provs) =
  (Some (fresh_beside S C p),
   memory_with (<[fresh_beside S C p := cursor]> S) C p c creds provs).
Proof.
  unfold aws_string_new_from_cursor. rewrite fresh_block_memory_with. reflexivity.
Qed.

Lemma cursor_from_string_run S C p c creds provs r cursor :
  aws_byte_cursor_from_string (Some r) (memory_with (<[r := cursor]> S) C p c creds provs) =
  (cursor, memory_with (<[r := cursor]> S) C p c creds provs).
Proof.
  unfold aws_byte_cursor_from_string. cbn. rewrite lookup_insert_eq. reflexivity.
Qed.

Lemma credentials_acquire_run S C p c creds provs q :
  aws_credentials_acquire q (memory_with S C p c creds provs) =
  (tt, memory_with S C p c (ref_acquire q creds) provs).
Proof. reflexivity. Qed.

Lemma credentials_provider_acquire_run S C p c creds provs q :
  aws_credentials_provider_acquire q (memory_with S C p c creds provs) =
  (tt, memory_with S C p c creds (ref_acquire q provs)).
Proof. reflexivity. Qed.

Lemma bind_bind {A B D} (c : M A) (k : A -> M B) (k' : B -> M D) m :
  bind (bind c k) k' m = bind c (fun a => bind (k a) k') m.
Proof. unfold bind. destruct (c m) as [a m']. reflexivity. Qed.

Lemma ret_run {A} (a : A) m : ret a m = (a, m).
Proof. reflexivity. Qed.

Ltac run_step :=
  rewrite ?bind_bind;
  erewrite bind_run by
    first [ apply store_run | apply string_new_run | apply cursor_from_string_run
          | apply credentials_acquire_run | apply credentials_provider_acquire_run
          | apply calloc_run | apply ret_run ].

(** ** The cached signing configuration *)

(** What [aws_cached_signing_config_new] returns and leaves in memory. *)
Lemma aws_cached_signing_config_new_run allocator sc m :
  let p := fresh_block m in
  let C := mem_cached_configs m in
  let S0 := mem_strings m in
  let has_region := 0 <? cursor_len (region sc) in
  let has_service := 0 <? cursor_len (service sc) in
  let r := fresh_beside S0 C p in
  let S1 := if has_region then <[r := region sc]> S0 else S0 in
  let s := fresh_beside S1 C p in
  let S2 := if has_service then <[s := service sc]> S1 else S1 in
  let v := fresh_beside S2 C p in
  let S3 := if has_service then <[v := signed_body_value sc]> S2 else S2 in
  aws_cached_signing_config_new allocator sc m =
  (p,
   memory_with S3 C p
     {| cached_allocator := Some allocator;
        cached_service := if has_service then Some s else None;
        cached_region := if has_region then Some r else None;
        cached_signed_body_value := if has_service then Some v else None;
        cached_config :=
          {| config_type := config_type sc;
             algorithm := algorithm sc;
             signature_type := signature_type sc;
             region := if has_region then region sc else ""%string;
             service := if has_service then service sc else ""%string;
             date := date sc;
             should_sign_header := should_sign_header sc;
             should_sign_header_ud := None;
             flags := flags sc;
             signed_body_value :=
               if has_service then signed_body_value sc else ""%string;
             signed_body_header := signed_body_header sc;
             credentials := credentials sc;
             credentials_provider := credentials_provider sc;
             expiration_in_seconds := expiration_in_seconds sc |} |}
     match credentials sc with
     | Some c => ref_acquire c (mem_credentials m)
     | None => mem_credentials m
     end
     match credentials_provider sc with
     | Some q => ref_acquire q (mem_credentials_providers m)
     | None => mem_credentials_providers m
     end).
Proof.
  destruct sc as [ct al st rg sv dt ssh ud fl sbv sbh cr cp ex].
  unfold aws_cached_signing_config_new.
  cbn [region service config_type algorithm signature_type date should_sign_header
       flags signed_body_value signed_body_header credentials credentials_provider
       expiration_in_seconds].
  destruct (0 <? cursor_len rg) eqn:Hr, (0 <? cursor_len sv) eqn:Hs,
    cr as [c|], cp as [q|]; cbv zeta;
    repeat run_step; rewrite ret_run; reflexivity.
Qed.

Lemma ref_release_acquire q (refs : gmap ptr positive) :
  ref_release q (ref_acquire q refs) = refs.
Proof.
  unfold ref_release, ref_acquire. rewrite lookup_alter_eq.
  destruct (refs !! q) as [n|] eqn:Hq; cbn.
  - assert (Hn : <[q := Pos.pred (Pos.succ n)]> (alter Pos.succ q refs) = refs).
    { rewrite Pos.pred_succ. apply map_eq. intros k.
      destruct (decide (q = k)) as [->|Hne].
      - rewrite lookup_insert_eq. congruence.
      - rewrite lookup_insert_ne, lookup_alter_ne by done. reflexivity. }
    destruct n; exact Hn.
  - apply map_eq. intros k. destruct (decide (q = k)) as [->|Hne].
    + rewrite lookup_alter_eq, Hq. reflexivity.
    + rewrite lookup_alter_ne by done. reflexivity.
Qed.

(** What [aws_cached_signing_config_destroy] does to a live configuration. *)
Lemma aws_cached_signing_config_destroy_run S C p c creds provs :
  aws_cached_signing_config_destroy (Some p) (memory_with S C p c creds provs) =
  (tt,
   {| mem_strings :=
        let S := match cached_service c with Some x => delete x S | None => S end in
        let S := match cached_region c with Some x => delete x S | None => S end in
        match cached_signed_body_value c with Some x => delete x S | None => S end;
      mem_cached_configs := delete p (<[p := c]> C);
      mem_credentials :=
        match credentials (cached_config c) with
        | Some q => ref_release q creds
        | None => creds
        end;
      mem_credentials_providers :=
        match credentials_provider (cached_config c) with
        | Some q => ref_release q provs
        | None => provs
        end |}).
Proof.
  unfold aws_cached_signing_config_destroy, load, bind, memory_with.
  cbn [mem_cached_configs]. rewrite lookup_insert_eq.
  destruct c as [a sv rg sbv cfg]. cbn [cached_config cached_service cached_region
    cached_signed_body_value cached_allocator].
  destruct (credentials cfg), (credentials_provider cfg), sv, rg, sbv; reflexivity.
Qed.

Lemma delete_fresh_insert {V} (S : gmap ptr V) k x :
  S !! k = None -> delete k (<[k := x]> S) = S.
Proof. intros H. rewrite delete_insert_eq. apply delete_id. exact H. Qed.

(** C6: creating a cached configuration acquires one reference on the
    credentials and one on the credentials provider exactly when the source
    names them, allocates one block and exactly the strings the
    configuration owns, and destroying the configuration gives every one of
    them back: the memory is the one before the creation. *)
Theorem aws_cached_signing_config_new_destroy_neutral allocator sc m :
  let '(p, m1) := aws_cached_signing_config_new allocator sc m in
  mem_credentials m1 =
    match credentials sc with
    | Some c => ref_acquire c (mem_credentials m)
    | None => mem_credentials m
    end
  ∧ mem_credentials_providers m1 =
    match credentials_provider sc with
    | Some q => ref_acquire q (mem_credentials_providers m)
    | None => mem_credentials_providers m
    end
  ∧ mem_cached_configs m !! p = None
  ∧ dom (mem_cached_configs m1) = {[p]} ∪ dom (mem_cached_configs m)
  ∧ (∃ c, mem_cached_configs m1 !! p = Some c
        ∧ credentials (cached_config c) = credentials sc
        ∧ credentials_provider (cached_config c) = credentials_provider sc
        ∧ owned_strings c ## dom (mem_strings m)
        ∧ dom (mem_strings m1) = dom (mem_strings m) ∪ owned_strings c)
  ∧ aws_cached_signing_config_destroy (Some p) m1 = (tt, m).
Proof.
  rewrite aws_cached_signing_config_new_run.
  set (p := fresh_block m). set (C := mem_cached_configs m).
  set (S0 := mem_strings m).
  set (r := fresh_beside S0 C p).
  pose proof (fresh_beside_strings S0 C p) as Hr. fold r in Hr.
  pose proof (fresh_block_configs m) as Hp. fold p C in Hp.
  cbv zeta. fold r.
  split; [reflexivity|]. split; [reflexivity|]. split; [exact Hp|].
  split; [cbn; apply dom_insert_L|].
  split.
  - eexists. split; [cbn; apply lookup_insert_eq|].
    split; [reflexivity|]. split; [reflexivity|].
    unfold owned_strings. cbn [cached_region cached_service cached_signed_body_value
      memory_with mem_strings].
    destruct (0 <? cursor_len (region sc)), (0 <? cursor_len (service sc)); cbn [from_option].
    + set (S1 := <[r := region sc]> S0).
      set (s := fresh_beside S1 C p).
      pose proof (fresh_beside_strings S1 C p) as Hs. fold s in Hs.
      set (S2 := <[s := service sc]> S1).
      pose proof (fresh_beside_strings S2 C p) as Hv.
      subst S2 S1. rewrite !dom_insert_L.
      apply not_elem_of_dom in Hr, Hs, Hv. rewrite !dom_insert_L in Hs, Hv.
      rewrite dom_insert_L in Hv. split; set_solver.
    + apply not_elem_of_dom in Hr. rewrite !dom_insert_L. split; set_solver.
    + fold r. set (S2 := <[r := service sc]> S0).
      pose proof (fresh_beside_strings S2 C p) as Hv.
      subst S2. rewrite !dom_insert_L.
      apply not_elem_of_dom in Hr, Hv. rewrite !dom_insert_L in Hv.
      split; set_solver.
    + split; set_solver.
  - rewrite aws_cached_signing_config_destroy_run.
    cbn [cached_region cached_service cached_signed_body_value cached_config
         credentials credentials_provider].
    destruct m as [S0' C' creds provs]. cbn in S0, C, Hp |- *. subst S0 C.
    f_equal. f_equal.
    + destruct (0 <? cursor_len (region sc)), (0 <? cursor_len (service sc)); cbv zeta.
      * set (S1 := <[r := region sc]> S0').
        set (s := fresh_beside S1 C' p).
        pose proof (fresh_beside_strings S1 C' p) as Hs. fold s in Hs.
        set (S2 := <[s := service sc]> S1).
        set (v := fresh_beside S2 C' p).
        pose proof (fresh_beside_strings S2 C' p) as Hv. fold v in Hv.
        subst S2 S1.
        apply lookup_insert_None in Hs as [Hs Hrs].
        apply lookup_insert_None in Hv as [Hv Hsv].
        apply lookup_insert_None in Hv as [Hv Hrv].
        clearbody v s r.
        apply map_eq. intros k.
        rewrite !lookup_delete, !lookup_insert.
        repeat case_decide; subst; congruence.
      * apply delete_fresh_insert, Hr.
      * fold r. set (S2 := <[r := service sc]> S0').
        set (v := fresh_beside S2 C' p).
        pose proof (fresh_beside_strings S2 C' p) as Hv. fold v in Hv.
        subst S2.
        apply lookup_insert_None in Hv as [Hv Hsv].
        clearbody v r.
        apply map_eq. intros k.
        rewrite !lookup_delete, !lookup_insert.
        repeat case_decide; subst; congruence.
      * reflexivity.
    + apply delete_fresh_insert, Hp.
    + destruct (credentials sc); [apply ref_release_acquire | reflexivity].
    + destruct (credentials_provider sc); [apply ref_release_acquire | reflexivity].
Qed.

Lemma lookup_insert_fresh_beside S C p k x y :
  S !! k = Some x -> <[fresh_beside S C p := y]> S !! k = Some x.
Proof.
  intros Hk. rewrite lookup_insert_ne; [exact Hk|].
  intros Heq. rewrite <- Heq, fresh_beside_strings in Hk. discriminate.
Qed.

(** C3: the cached configuration carries the scalar members of the source
    unchanged; the region and service cursors of its [config] designate the
    same bytes as the source's, and whenever a source cursor is not empty
    the cached configuration owns a string holding a copy of it. *)
Theorem aws_cached_signing_config_new_preserves allocator sc m :
  let '(p, m1) := aws_cached_signing_config_new allocator sc m in
  ∃ c, mem_cached_configs m1 !! p = Some c
    ∧ config_type (cached_config c) = config_type sc
    ∧ algorithm (cached_config c) = algorithm sc
    ∧ signature_type (cached_config c) = signature_type sc
    ∧ date (cached_config c) = date sc
    ∧ should_sign_header (cached_config c) = should_sign_header sc
    ∧ flags (cached_config c) = flags sc
    ∧ signed_body_header (cached_config c) = signed_body_header sc
    ∧ expiration_in_seconds (cached_config c) = expiration_in_seconds sc
    ∧ (region sc ≠ ""%string →
         region (cached_config c) = region sc
         ∧ ∃ r, cached_region c = Some r ∧ mem_strings m1 !! r = Some (region sc))
    ∧ (service sc ≠ ""%string →
         service (cached_config c) = service sc
         ∧ ∃ s, cached_service c = Some s ∧ mem_strings m1 !! s = Some (service sc)).
Proof.
  rewrite aws_cached_signing_config_new_run. cbv zeta.
  eexists. split; [cbn; apply lookup_insert_eq|].
  cbn [cached_config config_type algorithm signature_type date should_sign_header
       flags signed_body_header expiration_in_seconds region service
       cached_region cached_service memory_with mem_strings].
  repeat (split; [reflexivity|]).
  split.
  - intros Hne.
    assert (Hlen : (0 <? cursor_len (region sc)) = true).
    { apply Z.ltb_lt. unfold cursor_len. destruct (region sc); [done | cbn; lia]. }
    rewrite Hlen. split; [reflexivity|]. eexists. split; [reflexivity|].
    destruct (0 <? cursor_len (service sc)).
    + do 2 apply lookup_insert_fresh_beside. apply lookup_insert_eq.
    + apply lookup_insert_eq.
  - intros Hne.
    assert (Hlen : (0 <? cursor_len (service sc)) = true).
    { apply Z.ltb_lt. unfold cursor_len. destruct (service sc); [done | cbn; lia]. }
    rewrite Hlen. split; [reflexivity|]. eexists. split; [reflexivity|].
    apply lookup_insert_fresh_beside, lookup_insert_eq.
Qed.

Lemma aws_cached_signing_config_new_preserves_witness :
  ∃ c,
    mem_cached_configs
      (aws_cached_signing_config_new 9%positive sample_signing_config sample_memory).2
    !! (aws_cached_signing_config_new 9%positive sample_signing_config sample_memory).1
    = Some c
    ∧ region (cached_config c) = "us-east-1"%string
    ∧ service (cached_config c) = "s3"%string.
Proof.
  pose proof (aws_cached_signing_config_new_preserves
                9%positive sample_signing_config sample_memory) as H.
  destruct (aws_cached_signing_config_new 9%positive sample_signing_config sample_memory)
    as [p m1].
  destruct H as (c & Hc & _ & _ & _ & _ & _ & _ & _ & _ & Hregion & Hservice).
  exists c. split; [exact Hc|]. split.
  - apply Hregion. discriminate.
  - apply Hservice. discriminate.
Defined.

(** The guard the code puts on the copy of [signed_body_value]: the string
    is allocated exactly when the source's [service] is not empty, whatever
    [signed_body_value] holds. *)
Lemma aws_cached_signing_config_new_signed_body_value allocator sc m :
  let '(p, m1) := aws_cached_signing_config_new allocator sc m in
  ∃ c, mem_cached_configs m1 !! p = Some c
    ∧ (if 0 <? cursor_len (service sc)
       then signed_body_value (cached_config c) = signed_body_value sc
            ∧ ∃ v, cached_signed_body_value c = Some v
                 ∧ mem_strings m1 !! v = Some (signed_body_value sc)
       else signed_body_value (cached_config c) = ""%string
            ∧ cached_signed_body_value c = None).
Proof.
  rewrite aws_cached_signing_config_new_run. cbv zeta.
  eexists. split; [cbn; apply lookup_insert_eq|].
  cbn [cached_config signed_body_value cached_signed_body_value memory_with mem_strings].
  destruct (0 <? cursor_len (service sc)).
  - split; [reflexivity|]. eexists. split; [reflexivity|]. apply lookup_insert_eq.
  - split; reflexivity.
Qed.

(** C1: the code at two inputs.  With service "s3" and an empty
    [signed_body_value] the cached configuration owns a (non-null, empty)
    string for the signed body value; with an empty service and the signed
    body value "UNSIGNED-PAYLOAD" nothing is copied. *)
Theorem aws_cached_signing_config_new_signed_body_value_guard :
  (let '(p, m1) :=
     aws_cached_signing_config_new 9%positive signing_config_empty_body sample_memory in
   signed_body_value signing_config_empty_body = ""%string
   ∧ ∃ c v, mem_cached_configs m1 !! p = Some c
          ∧ cached_signed_body_value c = Some v
          ∧ mem_strings m1 !! v = Some ""%string)
  ∧
  (let '(p, m1) :=
     aws_cached_signing_config_new 9%positive signing_config_no_service sample_memory in
   signed_body_value signing_config_no_service = "UNSIGNED-PAYLOAD"%string
   ∧ ∃ c, mem_cached_configs m1 !! p = Some c
        ∧ cached_signed_body_value c = None
        ∧ signed_body_value (cached_config c) = ""%string).
Proof.
  split.
  - pose proof (aws_cached_signing_config_new_signed_body_value
                  9%positive signing_config_empty_body sample_memory) as H.
    destruct (aws_cached_signing_config_new _ _ _) as [p m1].
    split; [reflexivity|].
    destruct H as (c & Hc & _ & v & Hv & Hs).
    exists c, v. auto.
  - pose proof (aws_cached_signing_config_new_signed_body_value
                  9%positive signing_config_no_service sample_memory) as H.
    destruct (aws_cached_signing_config_new _ _ _) as [p m1].
    split; [reflexivity|].
    destruct H as (c & Hc & Hv & Hs).
    exists c. auto.
Qed.

(** The reference counts around a creation and a destruction, run on the
    sample memory: the provider is held twice in between, once afterwards. *)
Example sample_provider_reference_count :
  let '(p, m1) :=
    aws_cached_signing_config_new 9%positive sample_signing_config sample_memory in
  mem_credentials_providers m1 !! 7%positive = Some 2%positive
  ∧ (aws_cached_signing_config_destroy (Some p) m1).2 = sample_memory.
Proof. vm_compute. split; reflexivity. Qed.

(** ** Header collections *)

Lemma aws_byte_cursor_eq_ignore_case_lower a b :
  aws_byte_cursor_eq_ignore_case a b = true <-> cursor_to_lower a = cursor_to_lower b.
Proof.
  revert b. induction a as [|x a IH]; intros [|y b]; cbn; try (split; congruence).
  rewrite andb_true_iff, Ascii.eqb_eq, IH. split.
  - intros [-> ->]. reflexivity.
  - intros H. injection H. auto.
Qed.

Lemma aws_http_header_name_eq_refl a : aws_http_header_name_eq a a = true.
Proof. apply aws_byte_cursor_eq_ignore_case_lower. reflexivity. Qed.

Lemma aws_http_header_name_eq_trans_l a b c :
  aws_http_header_name_eq a b = true ->
  aws_http_header_name_eq a c = aws_http_header_name_eq b c.
Proof.
  unfold aws_http_header_name_eq. intros Hab.
  apply aws_byte_cursor_eq_ignore_case_lower in Hab.
  destruct (aws_byte_cursor_eq_ignore_case b c) eqn:Hbc.
  - apply aws_byte_cursor_eq_ignore_case_lower in Hbc.
    apply aws_byte_cursor_eq_ignore_case_lower. congruence.
  - destruct (aws_byte_cursor_eq_ignore_case a c) eqn:Hac; [|reflexivity].
    apply aws_byte_cursor_eq_ignore_case_lower in Hac.
    assert (aws_byte_cursor_eq_ignore_case b c = true) as Hbc'
      by (apply aws_byte_cursor_eq_ignore_case_lower; congruence).
    congruence.
Qed.

Lemma aws_http_header_name_eq_sym a b :
  aws_http_header_name_eq a b = aws_http_header_name_eq b a.
Proof.
  unfold aws_http_header_name_eq.
  destruct (aws_byte_cursor_eq_ignore_case a b) eqn:Hab,
           (aws_byte_cursor_eq_ignore_case b a) eqn:Hba; try reflexivity.
  - apply aws_byte_cursor_eq_ignore_case_lower in Hab. symmetry in Hab.
    apply aws_byte_cursor_eq_ignore_case_lower in Hab. congruence.
  - apply aws_byte_cursor_eq_ignore_case_lower in Hba. symmetry in Hba.
    apply aws_byte_cursor_eq_ignore_case_lower in Hba. congruence.
Qed.

Lemma find_app_bool {A} (f : A -> bool) (l1 l2 : list A) :
  List.find f (l1 ++ l2) =
  match List.find f l1 with Some x => Some x | None => List.find f l2 end.
Proof.
  induction l1 as [|x l1 IH]; cbn; [reflexivity|].
  destruct (f x); [reflexivity | exact IH].
Qed.

Lemma find_head_filter {A} (f : A -> bool) (l : list A) :
  List.find f l = head (List.filter f l).
Proof.
  induction l as [|x l IH]; cbn; [reflexivity|].
  destruct (f x); [reflexivity | exact IH].
Qed.

Lemma filter_ext_in_bool {A} (f g : A -> bool) (l : list A) :
  (forall x, In x l -> f x = g x) -> List.filter f l = List.filter g l.
Proof.
  induction l as [|x l IH]; cbn; intros H; [reflexivity|].
  rewrite (H x) by auto. rewrite IH by auto. reflexivity.
Qed.

(** The headers of one name after a single [aws_http_headers_set]. *)
Lemma headers_named_headers_set n h hd :
  headers_named n (headers_set (header_name h) (header_value h) hd) =
  if aws_http_header_name_eq (header_name h) n then [h] else headers_named n hd.
Proof.
  unfold headers_named, headers_set. rewrite List.filter_app. cbn [List.filter header_name].
  assert (Hh : {| header_name := header_name h; header_value := header_value h |} = h)
    by (destruct h; reflexivity).
  rewrite Hh.
  destruct (aws_http_header_name_eq (header_name h) n) eqn:Hn.
  - assert (Hnil : List.filter
               (fun x => aws_http_header_name_eq (header_name x) n)
               (List.filter
                  (fun x => negb (aws_http_header_name_eq (header_name x) (header_name h)))
                  hd) = []).
    { induction hd as [|x hd IH]; cbn; [reflexivity|].
      destruct (aws_http_header_name_eq (header_name x) (header_name h)) eqn:Hx; cbn.
      - exact IH.
      - rewrite (aws_http_header_name_eq_sym (header_name x) n).
        rewrite <- (aws_http_header_name_eq_trans_l _ _ _ Hn).
        rewrite (aws_http_header_name_eq_sym (header_name h)), Hx. exact IH. }
    rewrite Hnil. reflexivity.
  - rewrite app_nil_r.
    induction hd as [|x hd IH]; cbn; [reflexivity|].
    destruct (aws_http_header_name_eq (header_name x) (header_name h)) eqn:Hx; cbn.
    + rewrite (aws_http_header_name_eq_trans_l _ _ _ Hx), Hn. exact IH.
    + rewrite IH. reflexivity.
Qed.

Lemma last_header_named_cons n h hs :
  last_header_named n (h :: hs) =
  match last_header_named n hs with
  | Some x => Some x
  | None => if aws_http_header_name_eq (header_name h) n then Some h else None
  end.
Proof. unfold last_header_named. cbn [rev]. rewrite find_app_bool. reflexivity. Qed.

(** The headers of one name after the headers of [hs] were set in order:
    the last header of that name in [hs] alone, and the headers that were
    there when [hs] has none of that name. *)
Lemma headers_named_set_all n hs hd :
  headers_named n (set_all hs hd) =
  match last_header_named n hs with
  | Some h => [h]
  | None => headers_named n hd
  end.
Proof.
  revert hd. induction hs as [|h hs IH]; intros hd; [reflexivity|].
  cbn [set_all fold_left]. fold (set_all hs (headers_set (header_name h) (header_value h) hd)).
  rewrite IH, last_header_named_cons, headers_named_headers_set.
  destruct (last_header_named n hs); [reflexivity|].
  destruct (aws_http_header_name_eq (header_name h) n); reflexivity.
Qed.

Lemma last_header_named_Some n hs :
  (exists h, In h hs /\ aws_http_header_name_eq (header_name h) n = true) ->
  exists x, last_header_named n hs = Some x
            /\ In x hs /\ aws_http_header_name_eq (header_name x) n = true.
Proof.
  intros (h & Hin & Hn). unfold last_header_named.
  destruct (List.find _ (rev hs)) as [x|] eqn:Hf.
  - apply List.find_some in Hf as [Hx Hxn]. exists x.
    split; [reflexivity|]. split; [apply List.in_rev; exact Hx | exact Hxn].
  - apply List.in_rev in Hin.
    pose proof (List.find_none _ _ Hf h Hin) as Hfalse. cbn in Hfalse. congruence.
Qed.

Lemma last_header_named_None n hs :
  (forall h, In h hs -> aws_http_header_name_eq (header_name h) n = false) ->
  last_header_named n hs = None.
Proof.
  intros H. unfold last_header_named.
  destruct (List.find _ (rev hs)) as [x|] eqn:Hf; [|reflexivity].
  apply List.find_some in Hf as [Hx Hxn].
  rewrite H in Hxn; [discriminate | apply List.in_rev; exact Hx].
Qed.

Lemma aws_http_headers_get_named l n :
  aws_http_headers_get l n = header_value <$> head (headers_named n l).
Proof. unfold aws_http_headers_get, headers_named. rewrite find_head_filter. reflexivity. Qed.

Lemma insert_alter_eq {V} (f : V -> V) (k : ptr) (x : V) (m : gmap ptr V) :
  <[k := x]> (alter f k m) = <[k := x]> m.
Proof.
  apply map_eq. intros j. destruct (decide (k = j)) as [->|Hne].
  - rewrite !lookup_insert_eq. reflexivity.
  - rewrite !lookup_insert_ne, lookup_alter_ne by done. reflexivity.
Qed.

(** The loop of [copy_http_headers] between two different collections: it
    runs to the end and sets the remaining headers of the source, in order,
    in the destination. *)
Lemma copy_http_headers_loop_run (tl : list aws_http_header) :
  forall pre hd src dest (st : headers_store),
    src <> dest ->
    st !! src = Some (pre ++ tl) ->
    st !! dest = Some hd ->
    headers_valid tl ->
    copy_http_headers_loop (length tl) (length pre) src dest st =
    Some (<[dest := set_all tl hd]> st).
Proof.
  induction tl as [|h tl IH]; intros pre hd src dest st Hne Hsrc Hdest Hvalid.
  - cbn. rewrite insert_id by exact Hdest. reflexivity.
  - cbn [length copy_http_headers_loop].
    unfold aws_http_headers_get_index. rewrite Hsrc. cbn [mbind option_bind].
    rewrite lookup_app_r by lia. rewrite Nat.sub_diag. cbn [lookup list_lookup].
    unfold aws_http_headers_set.
    apply Forall_cons in Hvalid as [Hname Hvalid].
    assert (Hlen : (cursor_len (header_name h) =? 0) = false).
    { apply Z.eqb_neq. unfold cursor_len.
      destruct (header_name h); [congruence | cbn; lia]. }
    rewrite Hlen.
    replace (S (length pre)) with (length (pre ++ [h])) by (rewrite length_app; cbn; lia).
    rewrite (IH (pre ++ [h]) (headers_set (header_name h) (header_value h) hd)).
    + rewrite insert_alter_eq. reflexivity.
    + exact Hne.
    + rewrite lookup_alter_ne by congruence. rewrite <- app_assoc. exact Hsrc.
    + rewrite lookup_alter_eq, Hdest. reflexivity.
    + exact Hvalid.
Qed.

(** C8: between two different live collections, [copy_http_headers] runs to
    the end; the source and every other collection are as before; under
    every name the source has a header of, the destination then holds that
    name's last header of the source and no other, so the name maps to the
    value of its last occurrence; and the headers of the destination under
    names the source has no header of are as before.  Names are compared
    ignoring case, as the collection does. *)
Theorem copy_http_headers_sets_last_values
    (st : headers_store) (src dest : ptr) (hs hd : list aws_http_header) :
  src ≠ dest →
  st !! src = Some hs →
  st !! dest = Some hd →
  headers_valid hs →
  ∃ st' hd',
    copy_http_headers src dest st = Some st'
    ∧ st' !! src = Some hs
    ∧ st' !! dest = Some hd'
    ∧ (∀ k, k ≠ dest → st' !! k = st !! k)
    ∧ (∀ n, (∃ h, In h hs ∧ aws_http_header_name_eq (header_name h) n = true) →
         ∃ x, last_header_named n hs = Some x
            ∧ headers_named n hd' = [x]
            ∧ aws_http_headers_get hd' n = Some (header_value x)
            ∧ last_header_value hs n = Some (header_value x))
    ∧ (∀ n, (∀ h, In h hs → aws_http_header_name_eq (header_name h) n = false) →
         headers_named n hd' = headers_named n hd
         ∧ aws_http_headers_get hd' n = aws_http_headers_get hd n).
Proof.
  intros Hne Hsrc Hdest Hvalid.
  exists (<[dest := set_all hs hd]> st), (set_all hs hd).
  split.
  { unfold copy_http_headers, aws_http_headers_count. rewrite Hsrc, Hdest. cbn [fmap option_fmap option_map].
    apply (copy_http_headers_loop_run hs [] hd src dest st); assumption. }
  split; [rewrite lookup_insert_ne by congruence; exact Hsrc|].
  split; [apply lookup_insert_eq|].
  split; [intros k Hk; apply lookup_insert_ne; congruence|].
  split.
  - intros n Hn. apply last_header_named_Some in Hn as (x & Hx & _ & _).
    exists x. split; [exact Hx|].
    assert (Hnamed : headers_named n (set_all hs hd) = [x])
      by (rewrite headers_named_set_all, Hx; reflexivity).
    split; [exact Hnamed|]. split.
    + rewrite aws_http_headers_get_named, Hnamed. reflexivity.
    + unfold last_header_value, aws_http_headers_get.
      unfold last_header_named in Hx. rewrite Hx. reflexivity.
  - intros n Hn. apply last_header_named_None in Hn.
    assert (Hnamed : headers_named n (set_all hs hd) = headers_named n hd)
      by (rewrite headers_named_set_all, Hn; reflexivity).
    split; [exact Hnamed|].
    rewrite !aws_http_headers_get_named, Hnamed. reflexivity.
Qed.

Lemma copy_http_headers_sets_last_values_witness :
  ∃ st' hd',
    copy_http_headers 1%positive 2%positive sample_headers_store = Some st'
    ∧ st' !! 1%positive = Some sample_src_headers
    ∧ st' !! 2%positive = Some hd'
    ∧ aws_http_headers_get hd' "Host"%string = Some "b.example"%string
    ∧ aws_http_headers_get hd' "Range"%string = Some "bytes=0-9"%string.
Proof.
  destruct (copy_http_headers_sets_last_values sample_headers_store
              1%positive 2%positive sample_src_headers sample_dest_headers)
    as (st' & hd' & Hrun & Hsrc & Hdest & _ & Hin & Hout).
  - discriminate.
  - reflexivity.
  - reflexivity.
  - repeat constructor; discriminate.
  - exists st', hd'. split; [exact Hrun|]. split; [exact Hsrc|]. split; [exact Hdest|].
    split.
    + destruct (Hin "Host"%string) as (x & Hx & _ & Hget & _).
      * eexists. split; [left; reflexivity | reflexivity].
      * rewrite Hget. vm_compute in Hx. injection Hx as <-. reflexivity.
    + destruct (Hout "Range"%string) as [_ Hget].
      * intros h [<-|[<-|[<-|[]]]]; reflexivity.
      * rewrite Hget. reflexivity.
Defined.

(** What the destination of the sample holds after the copy. *)
Example copy_http_headers_sample :
  copy_http_headers 1%positive 2%positive sample_headers_store ≫= (.!! 2%positive) =
  Some [ {| header_name := "Range"%string; header_value := "bytes=0-9"%string |};
         {| header_name := "ETag"%string; header_value := "e1"%string |};
         {| header_name := "host"%string; header_value := "b.example"%string |} ].
Proof. vm_compute. reflexivity. Qed.

(** When source and destination are the same collection the loop reads a
    header past the end as soon as a name repeats: the first [set] erased
    the repetition and the collection is shorter than the count taken on
    entry. *)
Example copy_http_headers_aliased :
  copy_http_headers 1%positive 1%positive sample_headers_store = None.
Proof. vm_compute. reflexivity. Qed.

(** C8, as stated for every pair of collections, fails when source and
    destination are one collection: on a single collection holding A and B
    the loop moves A behind B, so the source is not what it was. *)
Lemma copy_http_headers_aliased_modifies_source :
  sample_single_store !! 1%positive = Some sample_single_headers
  ∧ headers_valid sample_single_headers
  ∧ copy_http_headers 1%positive 1%positive sample_single_store =
      Some {[ 1%positive :=
                [ {| header_name := "B"%string; header_value := "2"%string |};
                  {| header_name := "A"%string; header_value := "1"%string |} ] ]}
  ∧ ¬ (∃ st', copy_http_headers 1%positive 1%positive sample_single_store = Some st'
            ∧ st' !! 1%positive = Some sample_single_headers).
Proof.
  split; [reflexivity|]. split; [repeat constructor; discriminate|].
  assert (Hrun : copy_http_headers 1%positive 1%positive sample_single_store =
      Some {[ 1%positive :=
                [ {| header_name := "B"%string; header_value := "2"%string |};
                  {| header_name := "A"%string; header_value := "1"%string |} ] ]})
    by (vm_compute; reflexivity).
  split; [exact Hrun|].
  intros (st' & Hst' & Hsrc). rewrite Hrun in Hst'. injection Hst' as <-.
  rewrite lookup_singleton_eq in Hsrc. discriminate.
Qed.

(** ** Top-level tag value *)

Section TopLevelXmlTagValueProperties.
Variable recorded_error : Z.

Local Abbreviation child_cb :=
  (s_top_level_xml_tag_value_child_xml_node recorded_error).

(** On a node of another name the child callback changes nothing and asks
    to go on. *)
Lemma child_callback_other parser node ud :
  aws_byte_cursor_eq (xml_name node) (tag_name ud) = false ->
  child_cb parser node ud = Some (true, (parser, node, ud)).
Proof.
  intros Hne. unfold s_top_level_xml_tag_value_child_xml_node.
  cbn. rewrite Hne. reflexivity.
Qed.

(** On a closed node of the wanted name it stores the body and stops; on
    one that is not closed it reads the unwritten [node_body]. *)
Lemma child_callback_match parser node ud :
  aws_byte_cursor_eq (xml_name node) (tag_name ud) = true ->
  child_cb parser node ud =
  match xml_body node with
  | Some body =>
      Some (false, (parser, set_processed true node, set_result (Some body) ud))
  | None => None
  end.
Proof.
  intros Heq. unfold s_top_level_xml_tag_value_child_xml_node.
  cbn. rewrite Heq. unfold aws_xml_node_as_body. cbn.
  destruct (xml_body node); reflexivity.
Qed.

(** The traversal of one level, started without error and without result:
    it comes to what the walk comes to, the value returned to the caller
    being the one stored unless the parser holds an error. *)
Lemma traverse_siblings_walk siblings closed parser ud :
  stop_parsing parser = false -> error parser = 0 -> result ud = None ->
  match traverse_siblings recorded_error child_cb siblings closed parser ud with
  | Some (_, (parser', ud')) => Some (if error parser' =? 0 then result ud' else None)
  | None => None
  end = top_level_walk (tag_name ud) siblings.
Proof.
  intros Hstop Herr Hres.
  induction siblings as [|c rest IH]; cbn [traverse_siblings top_level_walk].
  - rewrite Hstop, Herr. cbn [orb negb Z.eqb].
    destruct closed; cbn [error set_error]; rewrite ?Herr, ?Hres;
      [reflexivity | destruct (recorded_error =? 0); reflexivity].
  - rewrite Hstop, Herr. cbn [orb negb Z.eqb].
    destruct (aws_byte_cursor_eq (xml_name c) (tag_name ud)) eqn:Hname.
    + rewrite child_callback_match by exact Hname. cbn [set_processed xml_body].
      destruct (xml_body c); [|reflexivity].
      cbn. rewrite Herr. reflexivity.
    + rewrite child_callback_other by exact Hname.
      cbn [negb]. rewrite Hstop. cbn [negb andb processed set_processed xml_body].
      destruct (xml_body c); [exact IH|].
      cbn [error set_error]. rewrite Hres.
      destruct (recorded_error =? 0); reflexivity.
Qed.

(** What [get_top_level_xml_tag_value] comes to on a document with a root. *)
Lemma get_top_level_xml_tag_value_walk allocator tag root :
  get_top_level_xml_tag_value recorded_error allocator tag (XmlRoot root) =
  top_level_walk tag (xml_children root).
Proof.
  unfold get_top_level_xml_tag_value, aws_xml_parser_parse.
  cbn [aws_xml_parser_new doc].
  unfold s_top_level_xml_tag_value_root_xml_node, aws_xml_node_traverse.
  cbn [set_processed xml_children xml_closed xml_name xml_body processed].
  pose proof (traverse_siblings_walk (xml_children root) (xml_closed root)
                {| doc := XmlRoot root; error := AWS_OP_SUCCESS; stop_parsing := false |}
                {| allocator := allocator; tag_name := tag; result := None |}
                eq_refl eq_refl eq_refl) as Hwalk.
  cbn [tag_name] in Hwalk.
  destruct (traverse_siblings _ _ _ _ _ _) as [[rc [parser ud]]|];
    rewrite <- Hwalk; [|reflexivity].
  cbn. destruct (error parser =? 0); reflexivity.
Qed.

(** The walk over closed nodes finds the body of the first node of the
    wanted name. *)
Lemma top_level_walk_closed tag siblings :
  Forall (fun c => is_Some (xml_body c)) siblings ->
  top_level_walk tag siblings =
  Some (List.find (fun c => aws_byte_cursor_eq (xml_name c) tag) siblings ≫= xml_body).
Proof.
  induction 1 as [|c rest [b Hb] Hrest IH]; cbn [top_level_walk List.find]; [reflexivity|].
  destruct (aws_byte_cursor_eq (xml_name c) tag).
  - cbn. rewrite Hb. reflexivity.
  - rewrite Hb. exact IH.
Qed.

(** The walk over nodes of other names finds nothing. *)
Lemma top_level_walk_no_match tag siblings :
  List.find (fun c => aws_byte_cursor_eq (xml_name c) tag) siblings = None ->
  top_level_walk tag siblings = Some None.
Proof.
  induction siblings as [|c rest IH]; cbn [top_level_walk List.find]; [reflexivity|].
  destruct (aws_byte_cursor_eq (xml_name c) tag); [discriminate|].
  intros Hfind. destruct (xml_body c); [apply IH, Hfind | reflexivity].
Qed.

End TopLevelXmlTagValueProperties.

(** C2: on a document whose root has closed children, the function returns
    the body of the first node nested directly in the root whose name is
    the tag, and it returns a value exactly when there is such a node; when
    no node nested directly in the root has that name it returns [NULL],
    whatever is nested deeper; and it returns [NULL] for bytes that hold no
    root. *)
Theorem get_top_level_xml_tag_value_top_level
    (recorded_error : Z) (allocator : ptr)
    (tag : aws_byte_cursor) (root : aws_xml_node) :
  (top_level_children_closed root →
     get_top_level_xml_tag_value recorded_error allocator tag (XmlRoot root)
       = Some (top_level_child tag root ≫= xml_body)
     ∧ ((∃ v, get_top_level_xml_tag_value recorded_error allocator tag (XmlRoot root)
              = Some (Some v))
        ↔ ∃ c, In c (xml_children root) ∧ xml_name c = tag))
  ∧ ((∀ c, In c (xml_children root) → xml_name c ≠ tag) →
     get_top_level_xml_tag_value recorded_error allocator tag (XmlRoot root)
       = Some None)
  ∧ get_top_level_xml_tag_value recorded_error allocator tag XmlNoNode = Some None
  ∧ get_top_level_xml_tag_value recorded_error allocator tag XmlNoMarkup = Some None.
Proof.
  split; [|split; [|split; reflexivity]].
  - intros Hclosed.
    rewrite get_top_level_xml_tag_value_walk, top_level_walk_closed by exact Hclosed.
    split; [reflexivity|].
    unfold top_level_child.
    destruct (List.find _ (xml_children root)) as [m|] eqn:Hfind; cbn.
    + apply List.find_some in Hfind as [Hin Hm].
      apply String.eqb_eq in Hm.
      unfold top_level_children_closed in Hclosed. rewrite Forall_forall in Hclosed.
      split; [intros _; exists m; auto|].
      intros _. destruct (Hclosed m) as [b Hb]; [apply list_elem_of_In, Hin|].
      exists b. rewrite Hb. reflexivity.
    + split; [intros [v Hv]; discriminate|].
      intros (c & Hin & Hc).
      pose proof (List.find_none _ _ Hfind c Hin) as Hfalse. cbn in Hfalse.
      apply String.eqb_neq in Hfalse. contradiction.
  - intros Hnone.
    rewrite get_top_level_xml_tag_value_walk. apply top_level_walk_no_match.
    destruct (List.find _ (xml_children root)) as [m|] eqn:Hfind; [|reflexivity].
    apply List.find_some in Hfind as [Hin Hm]. apply String.eqb_eq in Hm.
    destruct (Hnone m Hin Hm).
Qed.

Lemma get_top_level_xml_tag_value_top_level_witness :
  get_top_level_xml_tag_value AWS_OP_ERR 9%positive "UploadId"%string
    sample_upload_result = Some (Some "xyz"%string)
  ∧ get_top_level_xml_tag_value AWS_OP_ERR 9%positive "UploadId"%string
      sample_nested_upload_id = Some None.
Proof.
  unfold sample_upload_result, sample_nested_upload_id. split.
  - match goal with |- get_top_level_xml_tag_value _ _ _ (XmlRoot ?root) = _ =>
      destruct (get_top_level_xml_tag_value_top_level
                  AWS_OP_ERR 9%positive "UploadId"%string root) as [H _];
      destruct H as [-> _]; [repeat constructor; eexists; reflexivity | reflexivity]
    end.
  - match goal with |- get_top_level_xml_tag_value _ _ _ (XmlRoot ?root) = _ =>
      destruct (get_top_level_xml_tag_value_top_level
                  AWS_OP_ERR 9%positive "UploadId"%string root) as (_ & H & _);
      apply H; intros c [<-|[]]; discriminate
    end.
Defined.

(** Whenever the call of the parser comes back with a failure, the function
    returns [NULL], whatever the callbacks stored. *)
Lemma get_top_level_xml_tag_value_parse_failure
    (recorded_error : Z) (allocator : ptr)
    (tag : aws_byte_cursor) (xml_body : xml_document) rc parser ud :
  aws_xml_parser_parse recorded_error (aws_xml_parser_new xml_body)
    (s_top_level_xml_tag_value_root_xml_node recorded_error)
    {| allocator := allocator; tag_name := tag; result := None |}
    = Some (rc, (parser, ud)) ->
  rc <> 0 ->
  get_top_level_xml_tag_value recorded_error allocator tag xml_body = Some None.
Proof.
  intros Hparse Hrc. unfold get_top_level_xml_tag_value. rewrite Hparse.
  apply Z.eqb_neq in Hrc. rewrite Hrc. reflexivity.
Qed.

(** A failure of the parser that the function survives: the Bucket tag is
    not closed, nothing was stored, [NULL] is returned. *)
Example get_top_level_xml_tag_value_unclosed_sibling :
  (aws_xml_parser_parse AWS_OP_ERR (aws_xml_parser_new sample_unclosed_bucket)
     (s_top_level_xml_tag_value_root_xml_node AWS_OP_ERR)
     {| allocator := 9%positive; tag_name := "UploadId"%string; result := None |})
    ≫= (fun r => Some r.1) = Some AWS_OP_ERR
  ∧ get_top_level_xml_tag_value AWS_OP_ERR 9%positive "UploadId"%string
      sample_unclosed_bucket = Some None.
Proof. split; reflexivity. Qed.

(** C4: the code at a truncated response, whose UploadId tag is never
    closed.  [aws_xml_node_as_body] fails on that node and writes nothing;
    the child callback, which does not look at the return value, goes on to
    copy the local [node_body] that was never written.  The behaviour of
    the function is undefined there: it does not come to the point where it
    would return [NULL]. *)
Theorem get_top_level_xml_tag_value_unclosed_match_undefined (recorded_error : Z) :
  let node := XmlNode "UploadId"%string None [] false false in
  let ud := {| allocator := 9%positive; tag_name := "UploadId"%string; result := None |} in
  let parser := aws_xml_parser_new sample_truncated_upload_result in
  (aws_xml_node_as_body recorded_error parser node).1 = AWS_OP_ERR
  ∧ (aws_xml_node_as_body recorded_error parser node).2.2 = None
  ∧ s_top_level_xml_tag_value_child_xml_node recorded_error parser node ud = None
  ∧ get_top_level_xml_tag_value recorded_error 9%positive "UploadId"%string
      sample_truncated_upload_result = None.
Proof. cbv zeta. repeat split; reflexivity. Qed.

(** * Further properties *)

(** ** Top-level tag value: every document *)

(** X1: for every document, closed or not, the function comes to what the
    walk over the nodes nested directly in the root comes to.  It returns
    the body of the first node of the wanted name when that node and all
    the nodes before it are closed; its behaviour is undefined when that
    node is reached and lacks its closing tag (the unwritten [node_body] is
    copied); it returns [NULL] when a node before it lacks its closing tag,
    when no node has the name, and when the bytes hold no root.  What
    follows the node of the wanted name does not matter, and neither does
    the value the parser records for a failure. *)
Theorem get_top_level_xml_tag_value_every_document
    (recorded_error : Z) (allocator : ptr)
    (tag : aws_byte_cursor) (xml_body : xml_document) :
  get_top_level_xml_tag_value recorded_error allocator tag xml_body =
  match xml_body with
  | XmlRoot root => top_level_walk tag (xml_children root)
  | XmlNoNode | XmlNoMarkup => Some None
  end.
Proof.
  destruct xml_body as [| |root]; [reflexivity | reflexivity |].
  apply get_top_level_xml_tag_value_walk.
Qed.

(** ** Header collections: order, repetition and invariants *)

Lemma filter_filter_bool {A} (f g : A -> bool) (l : list A) :
  List.filter f (List.filter g l) = List.filter (fun x => g x && f x) l.
Proof.
  induction l as [|x l IH]; cbn; [reflexivity|].
  destruct (g x); cbn; [destruct (f x)|]; rewrite IH; reflexivity.
Qed.

Lemma filter_all_true {A} (f : A -> bool) (l : list A) :
  (forall x, In x l -> f x = true) -> List.filter f l = l.
Proof.
  induction l as [|x l IH]; cbn; intros H; [reflexivity|].
  rewrite (H x) by auto. rewrite IH by auto. reflexivity.
Qed.

Lemma filter_all_false {A} (f : A -> bool) (l : list A) :
  (forall x, In x l -> f x = false) -> List.filter f l = [].
Proof.
  induction l as [|x l IH]; cbn; intros H; [reflexivity|].
  rewrite (H x) by auto. apply IH. auto.
Qed.

Lemma named_in_In h l : In h l -> named_in (header_name h) l = true.
Proof.
  intros Hin. apply existsb_exists. exists h.
  split; [exact Hin | apply aws_http_header_name_eq_refl].
Qed.

Lemma keep_last_In h l : In h (keep_last l) -> In h l.
Proof.
  induction l as [|x l IH]; cbn; [auto|].
  destruct (named_in (header_name x) l); cbn; intuition.
Qed.

(** The headers left by setting those of [hs] in order: first the headers
    that were there under names [hs] does not have, then the last header of
    every name of [hs]. *)
Lemma set_all_keep_last hs hd :
  set_all hs hd =
  List.filter (fun h => negb (named_in (header_name h) hs)) hd ++ keep_last hs.
Proof.
  revert hd. induction hs as [|h hs IH]; intros hd.
  - cbn. rewrite app_nil_r. symmetry. apply filter_all_true. reflexivity.
  - cbn [set_all fold_left].
    fold (set_all hs (headers_set (header_name h) (header_value h) hd)).
    rewrite IH. unfold headers_set. rewrite List.filter_app, filter_filter_bool.
    cbn [List.filter header_name keep_last].
    assert (Hh : {| header_name := header_name h; header_value := header_value h |} = h)
      by (destruct h; reflexivity).
    rewrite Hh, <- app_assoc. f_equal.
    + apply filter_ext_in_bool. intros x _. cbn [named_in existsb].
      rewrite (aws_http_header_name_eq_sym (header_name h) (header_name x)).
      rewrite negb_orb. reflexivity.
    + destruct (named_in (header_name h) hs); reflexivity.
Qed.

(** What [copy_http_headers] leaves between two different live
    collections. *)
Lemma copy_http_headers_run
    (st : headers_store) (src dest : ptr) (hs hd : list aws_http_header) :
  src <> dest -> st !! src = Some hs -> st !! dest = Some hd -> headers_valid hs ->
  copy_http_headers src dest st = Some (<[dest := set_all hs hd]> st).
Proof.
  intros Hne Hsrc Hdest Hvalid.
  unfold copy_http_headers, aws_http_headers_count. rewrite Hsrc, Hdest.
  cbn [fmap option_fmap option_map].
  apply (copy_http_headers_loop_run hs [] hd src dest st); assumption.
Qed.

(** X3: between two different live collections, the destination ends up
    holding, in this order, its former headers under names the source does
    not have, then the last header of each name of the source in the order
    of those last occurrences. *)
Theorem copy_http_headers_order
    (st : headers_store) (src dest : ptr) (hs hd : list aws_http_header) :
  src ≠ dest →
  st !! src = Some hs →
  st !! dest = Some hd →
  headers_valid hs →
  copy_http_headers src dest st =
  Some (<[dest := List.filter (fun h => negb (named_in (header_name h) hs)) hd
                  ++ keep_last hs]> st).
Proof.
  intros Hne Hsrc Hdest Hvalid.
  rewrite (copy_http_headers_run st src dest hs hd) by assumption.
  rewrite set_all_keep_last. reflexivity.
Qed.

Lemma copy_http_headers_order_witness :
  copy_http_headers 1%positive 2%positive sample_headers_store =
  Some (<[2%positive :=
           [ {| header_name := "Range"%string; header_value := "bytes=0-9"%string |};
             {| header_name := "ETag"%string; header_value := "e1"%string |};
             {| header_name := "host"%string; header_value := "b.example"%string |} ]]>
          sample_headers_store).
Proof.
  apply (copy_http_headers_order sample_headers_store 1%positive 2%positive
           sample_src_headers sample_dest_headers).
  - discriminate.
  - reflexivity.
  - reflexivity.
  - repeat constructor; discriminate.
Defined.

Lemma set_all_idempotent hs hd : set_all hs (set_all hs hd) = set_all hs hd.
Proof.
  rewrite (set_all_keep_last hs (set_all hs hd)), (set_all_keep_last hs hd).
  rewrite List.filter_app, filter_filter_bool. f_equal.
  rewrite (filter_all_false _ (keep_last hs)).
  - rewrite app_nil_r. apply filter_ext_in_bool. intros x _.
    destruct (negb (named_in (header_name x) hs)); reflexivity.
  - intros x Hx. apply keep_last_In, named_in_In in Hx. rewrite Hx. reflexivity.
Qed.

(** X4: copying is idempotent: between two different live collections, a
    second copy of the same source leaves the store as the first copy left
    it. *)
Theorem copy_http_headers_idempotent
    (st st' : headers_store) (src dest : ptr) (hs hd : list aws_http_header) :
  src ≠ dest →
  st !! src = Some hs →
  st !! dest = Some hd →
  headers_valid hs →
  copy_http_headers src dest st = Some st' →
  copy_http_headers src dest st' = Some st'.
Proof.
  intros Hne Hsrc Hdest Hvalid Hrun.
  assert (Hst' : st' = <[dest := set_all hs hd]> st).
  { rewrite (copy_http_headers_run st src dest hs hd) in Hrun by assumption.
    congruence. }
  subst st'.
  rewrite (copy_http_headers_run _ src dest hs (set_all hs hd)).
  - rewrite set_all_idempotent, insert_insert_eq. reflexivity.
  - exact Hne.
  - rewrite lookup_insert_ne by congruence. exact Hsrc.
  - apply lookup_insert_eq.
  - exact Hvalid.
Qed.

Lemma copy_http_headers_idempotent_witness :
  ∃ st', copy_http_headers 1%positive 2%positive sample_headers_store = Some st'
       ∧ copy_http_headers 1%positive 2%positive st' = Some st'.
Proof.
  destruct (copy_http_headers 1%positive 2%positive sample_headers_store)
    as [st'|] eqn:Hrun; [|vm_compute in Hrun; discriminate].
  exists st'. split; [reflexivity|].
  apply (copy_http_headers_idempotent sample_headers_store st' 1%positive 2%positive
           sample_src_headers sample_dest_headers).
  - discriminate.
  - reflexivity.
  - reflexivity.
  - repeat constructor; discriminate.
  - exact Hrun.
Defined.

(** X5: the copy keeps the invariants of the destination: when the source
    and the destination have no empty header name, neither has the
    destination afterwards; when no name repeats in the destination before,
    none repeats afterwards; and it never holds more headers than the two
    collections held together. *)
Theorem copy_http_headers_keeps_invariants
    (st st' : headers_store) (src dest : ptr) (hs hd : list aws_http_header) :
  src ≠ dest →
  st !! src = Some hs →
  st !! dest = Some hd →
  headers_valid hs →
  copy_http_headers src dest st = Some st' →
  ∃ hd', st' !! dest = Some hd'
    ∧ (headers_valid hd → headers_valid hd')
    ∧ (headers_unique hd → headers_unique hd')
    ∧ (length hd' <= length hd + length hs)%nat.
Proof.
  intros Hne Hsrc Hdest Hvalid Hrun.
  assert (Hst' : st' = <[dest := set_all hs hd]> st).
  { rewrite (copy_http_headers_run st src dest hs hd) in Hrun by assumption.
    congruence. }
  subst st'. exists (set_all hs hd). split; [apply lookup_insert_eq|].
  split; [|split].
  - intros Hd. unfold headers_valid in *. rewrite set_all_keep_last.
    rewrite Forall_forall in *. intros x Hx.
    apply list_elem_of_In, in_app_or in Hx. destruct Hx as [Hx|Hx].
    + apply List.filter_In in Hx as [Hx _]. apply Hd, list_elem_of_In, Hx.
    + apply keep_last_In in Hx. apply Hvalid, list_elem_of_In, Hx.
  - intros Hu n. rewrite headers_named_set_all.
    destruct (last_header_named n hs); [cbn; lia | apply Hu].
  - rewrite set_all_keep_last, length_app.
    pose proof (List.filter_length_le
                  (fun h => negb (named_in (header_name h) hs)) hd) as Hf.
    assert (Hk : (length (keep_last hs) <= length hs)%nat).
    { clear. induction hs as [|h hs IH]; cbn; [lia|].
      destruct (named_in (header_name h) hs); cbn; lia. }
    lia.
Qed.

Lemma copy_http_headers_keeps_invariants_witness :
  ∃ st' hd',
    copy_http_headers 1%positive 2%positive sample_headers_store = Some st'
    ∧ st' !! 2%positive = Some hd'
    ∧ headers_valid hd'
    ∧ (length hd' <= 5)%nat.
Proof.
  destruct (copy_http_headers 1%positive 2%positive sample_headers_store)
    as [st'|] eqn:Hrun; [|vm_compute in Hrun; discriminate].
  destruct (copy_http_headers_keeps_invariants sample_headers_store st'
              1%positive 2%positive sample_src_headers sample_dest_headers)
    as (hd' & Hd & Hvalid & _ & Hlen).
  - discriminate.
  - reflexivity.
  - reflexivity.
  - repeat constructor; discriminate.
  - exact Hrun.
  - exists st', hd'. split; [reflexivity|]. split; [exact Hd|].
    split; [apply Hvalid; repeat constructor; discriminate | exact Hlen].
Defined.

(** ** The cached signing configuration: what creation leaves alone *)

Lemma cursor_len_pos (c : aws_byte_cursor) :
  (0 <? cursor_len c) = negb (String.eqb c ""%string).
Proof. destruct c; reflexivity. Qed.

(** The memory after a creation, by lookups: one new block holding a
    configuration, its strings at addresses that were free, every other
    address as before. *)
Lemma aws_cached_signing_config_new_lookups allocator sc m :
  let '(p, m1) := aws_cached_signing_config_new allocator sc m in
  exists c,
    mem_cached_configs m1 = <[p := c]> (mem_cached_configs m)
    /\ mem_cached_configs m !! p = None
    /\ credentials (cached_config c) = credentials sc
    /\ credentials_provider (cached_config c) = credentials_provider sc
    /\ mem_credentials m1 =
         match credentials sc with
         | Some q => ref_acquire q (mem_credentials m)
         | None => mem_credentials m
         end
    /\ mem_credentials_providers m1 =
         match credentials_provider sc with
         | Some q => ref_acquire q (mem_credentials_providers m)
         | None => mem_credentials_providers m
         end
    /\ (forall k, k ∈ owned_strings c -> mem_strings m !! k = None)
    /\ (forall k, k ∈ owned_strings c -> is_Some (mem_strings m1 !! k))
    /\ (forall k, (k ∉ owned_strings c) -> mem_strings m1 !! k = mem_strings m !! k)
    /\ (p ∉ owned_strings c)
    /\ (forall r s, cached_region c = Some r -> cached_service c = Some s -> r <> s)
    /\ (forall r v, cached_region c = Some r -> cached_signed_body_value c = Some v -> r <> v)
    /\ (forall s v, cached_service c = Some s -> cached_signed_body_value c = Some v -> s <> v).
Proof.
  rewrite aws_cached_signing_config_new_run. cbv zeta.
  set (p := fresh_block m). set (C := mem_cached_configs m).
  set (S0 := mem_strings m).
  pose proof (fresh_block_configs m) as Hp. fold p C in Hp.
  eexists. split; [reflexivity|]. split; [exact Hp|].
  split; [reflexivity|]. split; [reflexivity|].
  split; [reflexivity|]. split; [reflexivity|].
  unfold owned_strings.
  cbn [cached_region cached_service cached_signed_body_value memory_with mem_strings].
  destruct (0 <? cursor_len (region sc)), (0 <? cursor_len (service sc));
    cbn [from_option].
  - set (r := fresh_beside S0 C p).
    pose proof (fresh_beside_strings S0 C p) as Hr. fold r in Hr.
    pose proof (fresh_beside_ne S0 C p) as Hrp. fold r in Hrp.
    set (S1 := <[r := region sc]> S0).
    set (s := fresh_beside S1 C p).
    pose proof (fresh_beside_strings S1 C p) as Hs. fold s in Hs.
    pose proof (fresh_beside_ne S1 C p) as Hsp. fold s in Hsp.
    set (S2 := <[s := service sc]> S1).
    set (v := fresh_beside S2 C p).
    pose proof (fresh_beside_strings S2 C p) as Hv. fold v in Hv.
    pose proof (fresh_beside_ne S2 C p) as Hvp. fold v in Hvp.
    subst S2 S1.
    apply lookup_insert_None in Hs as [Hs Hrs].
    apply lookup_insert_None in Hv as [Hv Hsv].
    apply lookup_insert_None in Hv as [Hv Hrv].
    clearbody v s r.
    repeat split.
    + intros k Hk. assert (k = r \/ k = s \/ k = v) as [->|[->| ->]] by set_solver;
        assumption.
    + intros k Hk. rewrite !lookup_insert.
      repeat case_decide; eauto. exfalso. set_solver.
    + intros k Hk. rewrite !lookup_insert.
      repeat case_decide; try reflexivity; exfalso; set_solver.
    + set_solver.
    + intros ? ? [= <-] [= <-]. exact Hrs.
    + intros ? ? [= <-] [= <-]. exact Hrv.
    + intros ? ? [= <-] [= <-]. exact Hsv.
  - set (r := fresh_beside S0 C p).
    pose proof (fresh_beside_strings S0 C p) as Hr. fold r in Hr.
    pose proof (fresh_beside_ne S0 C p) as Hrp. fold r in Hrp.
    clearbody r.
    repeat split; try discriminate.
    + intros k Hk. assert (k = r) as -> by set_solver. assumption.
    + intros k Hk. rewrite !lookup_insert.
      repeat case_decide; eauto. exfalso. set_solver.
    + intros k Hk. rewrite !lookup_insert.
      repeat case_decide; try reflexivity; exfalso; set_solver.
    + set_solver.
  - set (s := fresh_beside S0 C p).
    pose proof (fresh_beside_strings S0 C p) as Hs. fold s in Hs.
    pose proof (fresh_beside_ne S0 C p) as Hsp. fold s in Hsp.
    set (S2 := <[s := service sc]> S0).
    set (v := fresh_beside S2 C p).
    pose proof (fresh_beside_strings S2 C p) as Hv. fold v in Hv.
    pose proof (fresh_beside_ne S2 C p) as Hvp. fold v in Hvp.
    subst S2.
    apply lookup_insert_None in Hv as [Hv Hsv].
    clearbody v s.
    repeat split; try discriminate.
    + intros k Hk. assert (k = s \/ k = v) as [->| ->] by set_solver; assumption.
    + intros k Hk. rewrite !lookup_insert.
      repeat case_decide; eauto. exfalso. set_solver.
    + intros k Hk. rewrite !lookup_insert.
      repeat case_decide; try reflexivity; exfalso; set_solver.
    + set_solver.
    + intros ? ? [= <-] [= <-]. exact Hsv.
  - repeat split; try discriminate; try set_solver.
Qed.

(** X6: creating a cached configuration leaves everything that was in
    memory as it was: every live string and every live configuration keeps
    its content, and the only reference counts that change are those of the
    credentials and of the provider the source names, each raised by one. *)
Theorem aws_cached_signing_config_new_frame allocator sc m :
  let '(p, m1) := aws_cached_signing_config_new allocator sc m in
  (∀ k s, mem_strings m !! k = Some s → mem_strings m1 !! k = Some s)
  ∧ (∀ k c, mem_cached_configs m !! k = Some c → mem_cached_configs m1 !! k = Some c)
  ∧ (∀ q, credentials sc ≠ Some q → mem_credentials m1 !! q = mem_credentials m !! q)
  ∧ (∀ q, credentials sc = Some q →
       mem_credentials m1 !! q = Pos.succ <$> mem_credentials m !! q)
  ∧ (∀ q, credentials_provider sc ≠ Some q →
       mem_credentials_providers m1 !! q = mem_credentials_providers m !! q)
  ∧ (∀ q, credentials_provider sc = Some q →
       mem_credentials_providers m1 !! q = Pos.succ <$> mem_credentials_providers m !! q).
Proof.
  pose proof (aws_cached_signing_config_new_lookups allocator sc m) as H.
  destruct (aws_cached_signing_config_new allocator sc m) as [p m1].
  destruct H as (c & Hconfigs & Hp & _ & _ & Hcreds & Hprovs & Hfree & _ & Hother & _).
  split; [|split; [|split; [|split; [|split]]]].
  - intros k s Hk. rewrite Hother; [exact Hk|].
    intros Hin. rewrite (Hfree k Hin) in Hk. discriminate.
  - intros k c' Hk. rewrite Hconfigs, lookup_insert_ne; [exact Hk|]. congruence.
  - intros q Hq. rewrite Hcreds. destruct (credentials sc) as [q'|]; [|reflexivity].
    unfold ref_acquire. apply lookup_alter_ne. congruence.
  - intros q Hq. rewrite Hcreds, Hq. unfold ref_acquire. apply lookup_alter_eq.
  - intros q Hq. rewrite Hprovs.
    destruct (credentials_provider sc) as [q'|]; [|reflexivity].
    unfold ref_acquire. apply lookup_alter_ne. congruence.
  - intros q Hq. rewrite Hprovs, Hq. unfold ref_acquire. apply lookup_alter_eq.
Qed.

(** X7: the blocks a creation allocates are all different: the addresses
    of the region, service and signed body value strings differ from one
    another and from the address of the configuration itself, and each
    holds a string afterwards. *)
Theorem aws_cached_signing_config_new_distinct_blocks allocator sc m :
  let '(p, m1) := aws_cached_signing_config_new allocator sc m in
  ∃ c, mem_cached_configs m1 !! p = Some c
    ∧ (p ∉ owned_strings c)
    ∧ (∀ k, k ∈ owned_strings c → is_Some (mem_strings m1 !! k))
    ∧ (∀ r s, cached_region c = Some r → cached_service c = Some s → r ≠ s)
    ∧ (∀ r v, cached_region c = Some r → cached_signed_body_value c = Some v → r ≠ v)
    ∧ (∀ s v, cached_service c = Some s → cached_signed_body_value c = Some v → s ≠ v).
Proof.
  pose proof (aws_cached_signing_config_new_lookups allocator sc m) as H.
  destruct (aws_cached_signing_config_new allocator sc m) as [p m1].
  destruct H as (c & Hconfigs & _ & _ & _ & _ & _ & _ & Hlive & _ & Hp & Hrs & Hrv & Hsv).
  exists c. split; [rewrite Hconfigs; apply lookup_insert_eq|].
  auto.
Qed.

(** The memory after the destruction of a live configuration, by lookups. *)
Lemma aws_cached_signing_config_destroy_lookups p c m :
  mem_cached_configs m !! p = Some c ->
  let m' := (aws_cached_signing_config_destroy (Some p) m).2 in
  mem_cached_configs m' = delete p (mem_cached_configs m)
  /\ (forall k, mem_strings m' !! k =
                if decide (k ∈ owned_strings c) then None else mem_strings m !! k)
  /\ mem_credentials m' =
       match credentials (cached_config c) with
       | Some q => ref_release q (mem_credentials m)
       | None => mem_credentials m
       end
  /\ mem_credentials_providers m' =
       match credentials_provider (cached_config c) with
       | Some q => ref_release q (mem_credentials_providers m)
       | None => mem_credentials_providers m
       end.
Proof.
  intros Hlive. cbv zeta.
  destruct m as [S C creds provs].
  cbn [mem_cached_configs mem_strings mem_credentials mem_credentials_providers] in *.
  assert (Hm : {| mem_strings := S; mem_cached_configs := C; mem_credentials := creds;
                  mem_credentials_providers := provs |}
               = memory_with S (delete p C) p c creds provs).
  { unfold memory_with. f_equal. symmetry. apply insert_delete_id. exact Hlive. }
  rewrite Hm, aws_cached_signing_config_destroy_run.
  cbn [snd mem_cached_configs mem_strings mem_credentials mem_credentials_providers].
  split; [rewrite delete_insert_eq; apply delete_delete_eq|].
  split; [|split; reflexivity].
  intros k. unfold owned_strings.
  destruct (cached_service c) as [s|], (cached_region c) as [r|],
    (cached_signed_body_value c) as [v|]; cbn [from_option];
    rewrite ?lookup_delete; repeat case_decide; try reflexivity;
    exfalso; set_solver.
Qed.

Lemma memory_eq (m m' : memory) :
  mem_strings m = mem_strings m' ->
  mem_cached_configs m = mem_cached_configs m' ->
  mem_credentials m = mem_credentials m' ->
  mem_credentials_providers m = mem_credentials_providers m' ->
  m = m'.
Proof. destruct m, m'. cbn. intros -> -> -> ->. reflexivity. Qed.

Lemma ref_release_acquire_under q1 q2 (refs : gmap ptr positive) :
  ref_release q1 (ref_acquire q2 (ref_acquire q1 refs)) = ref_acquire q2 refs.
Proof.
  destruct (decide (q1 = q2)) as [->|Hne].
  - apply ref_release_acquire.
  - unfold ref_acquire at 1 2. rewrite alter_alter_ne by congruence.
    apply (ref_release_acquire q1 (alter Pos.succ q2 refs)).
Qed.

(** X9: two cached configurations created one after the other are
    independent.  They live at different addresses; destroying the first
    leaves the second and the strings it owns as they were; and destroying
    the second afterwards gives back the memory from before the two
    creations, although the destructions do not mirror the creations. *)
Theorem aws_cached_signing_config_two_configs allocator1 sc1 allocator2 sc2 m :
  let '(p1, m1) := aws_cached_signing_config_new allocator1 sc1 m in
  let '(p2, m2) := aws_cached_signing_config_new allocator2 sc2 m1 in
  let m3 := (aws_cached_signing_config_destroy (Some p1) m2).2 in
  p1 ≠ p2
  ∧ mem_cached_configs m3 !! p1 = None
  ∧ (∃ c2, mem_cached_configs m2 !! p2 = Some c2
         ∧ mem_cached_configs m3 !! p2 = Some c2
         ∧ ∀ k, k ∈ owned_strings c2 →
             mem_strings m3 !! k = mem_strings m2 !! k
             ∧ is_Some (mem_strings m3 !! k))
  ∧ (aws_cached_signing_config_destroy (Some p2) m3).2 = m.
Proof.
  pose proof (aws_cached_signing_config_new_lookups allocator1 sc1 m) as H1.
  destruct (aws_cached_signing_config_new allocator1 sc1 m) as [p1 m1].
  destruct H1 as (c1 & Hconfigs1 & Hp1 & Hcr1 & Hpr1 & Hcreds1 & Hprovs1
                  & Hfree1 & Hlive1 & Hother1 & _).
  pose proof (aws_cached_signing_config_new_lookups allocator2 sc2 m1) as H2.
  destruct (aws_cached_signing_config_new allocator2 sc2 m1) as [p2 m2].
  destruct H2 as (c2 & Hconfigs2 & Hp2 & Hcr2 & Hpr2 & Hcreds2 & Hprovs2
                  & Hfree2 & Hlive2 & Hother2 & _).
  cbv zeta.
  assert (Hne : p1 ≠ p2).
  { intros ->. rewrite Hconfigs1, lookup_insert_eq in Hp2. discriminate. }
  assert (Hlive_p1 : mem_cached_configs m2 !! p1 = Some c1).
  { rewrite Hconfigs2, lookup_insert_ne by congruence.
    rewrite Hconfigs1. apply lookup_insert_eq. }
  destruct (aws_cached_signing_config_destroy_lookups p1 c1 m2 Hlive_p1)
    as (Hconfigs3 & Hstrings3 & Hcreds3 & Hprovs3).
  set (m3 := (aws_cached_signing_config_destroy (Some p1) m2).2) in *.
  assert (Hlive_p2 : mem_cached_configs m3 !! p2 = Some c2).
  { rewrite Hconfigs3, lookup_delete_ne by congruence.
    rewrite Hconfigs2. apply lookup_insert_eq. }
  destruct (aws_cached_signing_config_destroy_lookups p2 c2 m3 Hlive_p2)
    as (Hconfigs4 & Hstrings4 & Hcreds4 & Hprovs4).
  (* the strings of the second configuration are not among those of the first *)
  assert (Hdisjoint : ∀ k, k ∈ owned_strings c2 → k ∉ owned_strings c1).
  { intros k Hk2 Hk1. apply Hlive1 in Hk1 as [s Hs].
    rewrite (Hfree2 k Hk2) in Hs. discriminate. }
  split; [exact Hne|].
  split; [rewrite Hconfigs3; apply lookup_delete_eq|].
  split.
  - exists c2. split; [rewrite Hconfigs2; apply lookup_insert_eq|].
    split; [exact Hlive_p2|].
    intros k Hk. rewrite Hstrings3.
    rewrite decide_False by (apply Hdisjoint, Hk).
    split; [reflexivity | apply Hlive2, Hk].
  - apply memory_eq.
    + apply map_eq. intros k. rewrite Hstrings4, Hstrings3.
      destruct (decide (k ∈ owned_strings c2)) as [Hk2|Hk2].
      * symmetry. destruct (decide (k ∈ owned_strings c1)) as [Hk1|Hk1].
        -- apply Hfree1, Hk1.
        -- rewrite <- (Hother1 k Hk1). apply Hfree2, Hk2.
      * destruct (decide (k ∈ owned_strings c1)) as [Hk1|Hk1].
        -- symmetry. apply Hfree1, Hk1.
        -- rewrite (Hother2 k Hk2). apply Hother1, Hk1.
    + rewrite Hconfigs4, Hconfigs3, Hconfigs2, Hconfigs1.
      apply map_eq. intros k.
      rewrite !lookup_delete, !lookup_insert.
      rewrite Hconfigs1 in Hp2. apply lookup_insert_None in Hp2 as [Hp2 _].
      repeat case_decide; subst; congruence.
    + rewrite Hcreds4, Hcreds3, Hcreds2, Hcreds1, Hcr1, Hcr2.
      destruct (credentials sc1), (credentials sc2);
        rewrite ?ref_release_acquire_under, ?ref_release_acquire; reflexivity.
    + rewrite Hprovs4, Hprovs3, Hprovs2, Hprovs1, Hpr1, Hpr2.
      destruct (credentials_provider sc1), (credentials_provider sc2);
        rewrite ?ref_release_acquire_under, ?ref_release_acquire; reflexivity.
Qed.

(** X8: the cached configuration holds references of its own: when the
    source names a live provider (or live credentials), the object is still
    live, with the count it had before the creation, after the caller has
    released its reference. *)
Theorem aws_cached_signing_config_new_keeps_alive allocator sc m :
  let '(p, m1) := aws_cached_signing_config_new allocator sc m in
  (∀ q n, credentials_provider sc = Some q →
          mem_credentials_providers m !! q = Some n →
          mem_credentials_providers
            (aws_credentials_provider_release (Some q) m1).2 !! q = Some n)
  ∧ (∀ q n, credentials sc = Some q →
            mem_credentials m !! q = Some n →
            mem_credentials (aws_credentials_release (Some q) m1).2 !! q = Some n).
Proof.
  pose proof (aws_cached_signing_config_new_lookups allocator sc m) as H.
  destruct (aws_cached_signing_config_new allocator sc m) as [p m1].
  destruct H as (c & _ & _ & _ & _ & Hcreds & Hprovs & _).
  split.
  - intros q n Hq Hn. unfold aws_credentials_provider_release.
    cbn [snd with_credentials_providers mem_credentials_providers].
    rewrite Hprovs, Hq, ref_release_acquire. exact Hn.
  - intros q n Hq Hn. unfold aws_credentials_release.
    cbn [snd with_credentials mem_credentials].
    rewrite Hcreds, Hq, ref_release_acquire. exact Hn.
Qed.

Lemma aws_cached_signing_config_new_keeps_alive_witness :
  mem_credentials_providers
    (aws_credentials_provider_release (Some 7%positive)
       (aws_cached_signing_config_new 9%positive sample_signing_config sample_memory).2).2
  !! 7%positive = Some 1%positive.
Proof.
  pose proof (aws_cached_signing_config_new_keeps_alive
                9%positive sample_signing_config sample_memory) as H.
  destruct (aws_cached_signing_config_new 9%positive sample_signing_config sample_memory)
    as [p m1].
  destruct H as [H _]. apply H; reflexivity.
Defined.

(** The default signing configuration, member by member. *)
Lemma aws_s3_init_default_signing_config_unfold
    (config_aws algorithm_v4 sha256 : Z) (unsigned_payload : aws_byte_cursor)
    (previous : aws_signing_config_aws) (region_name : aws_byte_cursor)
    (provider : option ptr) :
  aws_s3_init_default_signing_config config_aws algorithm_v4 sha256 unsigned_payload
    previous region_name provider =
  {| config_type := config_aws; algorithm := algorithm_v4; signature_type := 0;
     region := region_name; service := "s3"%string; date := aws_date_time_zero;
     should_sign_header := None; should_sign_header_ud := None;
     flags := {| use_double_uri_encode := false; should_normalize_uri_path := true;
                 omit_session_token := false |};
     signed_body_value := unsigned_payload; signed_body_header := sha256;
     credentials := None; credentials_provider := provider;
     expiration_in_seconds := 0 |}.
Proof. reflexivity. Qed.

(** X10: caching a default signing configuration loses nothing: for every
    region and provider, the configuration cached from the result of
    [aws_s3_init_default_signing_config] is that result, member for member,
    and the cached structure owns a copy of the service name "s3" and of
    the unsigned-payload body value; it owns a region string exactly when
    the region is not empty. *)
Theorem aws_cached_signing_config_new_of_default
    (AWS_SIGNING_CONFIG_AWS AWS_SIGNING_ALGORITHM_V4 AWS_SBHT_X_AMZ_CONTENT_SHA256 : Z)
    (g_aws_signed_body_value_unsigned_payload : aws_byte_cursor)
    (previous : aws_signing_config_aws)
    (region_name : aws_byte_cursor) (provider : option ptr)
    (allocator : ptr) (m : memory) :
  let sc :=
    aws_s3_init_default_signing_config
      AWS_SIGNING_CONFIG_AWS AWS_SIGNING_ALGORITHM_V4 AWS_SBHT_X_AMZ_CONTENT_SHA256
      g_aws_signed_body_value_unsigned_payload previous region_name provider in
  let '(p, m1) := aws_cached_signing_config_new allocator sc m in
  ∃ c, mem_cached_configs m1 !! p = Some c
    ∧ cached_config c = sc
    ∧ (∃ s, cached_service c = Some s ∧ mem_strings m1 !! s = Some "s3"%string)
    ∧ (∃ v, cached_signed_body_value c = Some v
          ∧ mem_strings m1 !! v = Some g_aws_signed_body_value_unsigned_payload)
    ∧ (if String.eqb region_name ""%string
       then cached_region c = None
       else ∃ r, cached_region c = Some r ∧ mem_strings m1 !! r = Some region_name).
Proof.
  cbv zeta. rewrite aws_cached_signing_config_new_run. cbv zeta.
  rewrite aws_s3_init_default_signing_config_unfold.
  cbn [region service signed_body_value config_type algorithm signature_type date
       should_sign_header should_sign_header_ud flags signed_body_header credentials
       credentials_provider expiration_in_seconds].
  change (0 <? cursor_len "s3"%string) with true. cbv iota.
  rewrite cursor_len_pos.
  eexists. split; [cbn; apply lookup_insert_eq|].
  cbn [cached_config cached_service cached_signed_body_value cached_region
       memory_with mem_strings].
  destruct (String.eqb_spec region_name ""%string) as [->|Hregion]; cbn [negb].
  - repeat split; eexists; (split; [reflexivity|]).
    + apply lookup_insert_fresh_beside, lookup_insert_eq.
    + apply lookup_insert_eq.
  - repeat split; eexists; (split; [reflexivity|]).
    + apply lookup_insert_fresh_beside, lookup_insert_eq.
    + apply lookup_insert_eq.
    + do 2 apply lookup_insert_fresh_beside. apply lookup_insert_eq.
Qed.
